(** * hydra: the built-in functions of the interpreter

    A shallow embedding of [src/interpreter_functions.cpp].  The handlers
    [Interpreter::function_curve_angle], [function_curve_distance],
    [function_random], [function_set_resolution] and [function_theta] are
    transcribed statement by statement into a state-and-failure monad over
    the interpreter's scope stack, diagnostics sink and canvas;
    [function_clear], [function_circle], [function_line], [function_mark],
    [function_sqrt], [function_rotate] and [function_translate] follow them.

    A C++ [double] is an IEEE 754 binary64 number: it is modelled by Rocq's
    primitive [float], whose operations round to nearest-even exactly as the
    hardware does, so [<], [<=], [==] and the arithmetic behave on NaN,
    infinities and rounding as in the program. *)

From Stdlib Require Import Floats ZArith Lia.
From stdpp Require Import base option list strings gmap.

Set Default Proof Using "Type".
Set Warnings "-register-all".

(** ** Values *)

(** The values a [std::any] holds in the interpreter: numbers, strings,
    booleans and property maps ([PropertyMap], a map from property names to
    values that carries its type name under [type_string]). *)
Inductive Value : Type :=
| VNumber (x : float)
| VString (s : string)
| VBool (b : bool)
| VRecord (properties : gmap string Value).

(** Modelled from the spec: [System::type_string], the reserved key of a
    property map under which the type name is stored.  The constant is
    declared in a header that is not part of the sources; only its being
    different from the keys "r" and "phi" matters. *)
Definition type_string : string := "type".

(** [M_PI] of <cmath>: the double nearest to pi. *)
Definition M_PI : float := 0x1.921fb54442d18p+1%float.

(** ** Polar coordinates *)

(** [Pol]: a point given by its radius and its angle. *)
Record Pol : Type := mkPol { r : float; phi : float }.

(** The operations of [Pol] that the handlers call.  [pol.hpp] is not among
    the sources, so they are taken as parameters: [rotate_by] and
    [translate_horizontally_by] modify the point they are called on (here
    they return the modified point), [distance_to] and [theta] compute a
    number. *)
Class PolGeometry : Type := {
  rotate_by : Pol -> float -> Pol;
  translate_horizontally_by : Pol -> float -> Pol;
  distance_to : Pol -> Pol -> float;
  theta : float -> float -> float -> float
}.

(** The property map of a point, as the handlers build it:
    [m[System::type_string] = "Pol"; m["r"] = ...; m["phi"] = ...]. *)
Definition pol_property_map (radius angle : float) : gmap string Value :=
  <["phi" := VNumber angle]>
    (<["r" := VNumber radius]> (<[type_string := VString "Pol"]> ∅)).

(** ** Paths and the canvas *)

Record Path : Type := mkPath { points : list Pol; is_closed : bool }.

Definition push_back (point : Pol) (path : Path) : Path :=
  {| points := points path ++ [point]; is_closed := is_closed path |}.

(** The canvas: the paths added so far and the resolution. *)
Record Canvas : Type := mkCanvas { paths : list Path; resolution : float }.

(** ** Errors *)

(** The failures a handler reports through [print_error_message] before it
    returns [false], named as in the specification's taxonomy.
    [ScopeCloseError] is the message "Could not close hidden variable scope
    ..." of the two curve handlers. *)
Inductive Error : Type :=
| MissingArgument
| ExtraneousArgument
| TypeMismatch
| UndefinedVariable
| CannotCloseRootScope
| ScopeCloseError
| InconsistentEndpoints
| NonPositiveStep
| InvalidRange
| InvalidTriangle
| NumericalFailure
| InvalidResolution.

(** ** The interpreter *)

(** The part of the interpreter the handlers touch: the scope stack
    ([system.state], the root frame first and the innermost frame last, a
    frame's identifier being its index), the messages given to
    [system.print_error_message], and the canvas. *)
Record Interpreter : Type := mkInterpreter {
  scopes : list (gmap string Value);
  messages : list Error;
  canvas : Canvas
}.

(** Modelled from the spec: the argument expressions of a call node.  The
    parser and the evaluator are not among the sources; the specification
    gives the evaluation hook [evaluate(expression, scope)], which yields a
    value or fails.  An expression is represented by that function of the
    scope stack.  The arguments of the model are therefore free of effects:
    they are literals, variables, property accesses and what is computed
    from them.  An argument that calls a handler which draws, sets the
    resolution or opens a scope is outside the model, and every statement
    below about the interpreter after a call is a statement about calls
    with arguments of this kind. *)
Definition Expression : Type := list (gmap string Value) -> Error + Value.

(** Modelled from the spec: a call node ([ParseResult]): the text of the
    call ([value]) and its named argument expressions, in order. *)
Record ParseResult : Type := mkParseResult {
  value : string;
  arguments : list (string * Expression)
}.

(** ** The handler monad *)

(** How a run of a handler (or of a part of one) ends: it reaches the end
    with a value, it executes [return false], or a loop of the model runs
    out of fuel (the loop of the program is still running). *)
Inductive Outcome (A : Type) : Type :=
| Returned (a : A)
| Failed
| OutOfFuel.
Arguments Returned {A} a.
Arguments Failed {A}.
Arguments OutOfFuel {A}.

(** A computation over the interpreter.  State changes made before a failure
    stay: [return false] undoes nothing. *)
Definition Handler (A : Type) : Type := Interpreter -> Outcome A * Interpreter.

#[global] Instance Handler_ret : MRet Handler :=
  fun A a s => (Returned a, s).

#[global] Instance Handler_bind : MBind Handler :=
  fun A B f m s =>
    match m s with
    | (Returned a, s') => f a s'
    | (Failed, s') => (Failed, s')
    | (OutOfFuel, s') => (OutOfFuel, s')
    end.

(** [return false;] *)
Definition return_false {A : Type} : Handler A := fun s => (Failed, s).

(** [this->system.print_error_message(...)] *)
Definition print_error_message (e : Error) : Handler unit :=
  fun s => (Returned (),
            {| scopes := scopes s; messages := messages s ++ [e]; canvas := canvas s |}).

(** The result of a pure loop of the model: [None] is out of fuel. *)
Definition lift_fuel {A : Type} (o : option A) : Handler A :=
  fun s => match o with Some a => (Returned a, s) | None => (OutOfFuel, s) end.

(** [this->canvas.resolution] *)
Definition get_resolution : Handler float :=
  fun s => (Returned (resolution (canvas s)), s).

(** [this->canvas.resolution = x;] *)
Definition set_resolution (x : float) : Handler unit :=
  fun s => (Returned (),
            {| scopes := scopes s; messages := messages s;
               canvas := {| paths := paths (canvas s); resolution := x |} |}).

(** [this->canvas.add_path(path);] *)
Definition add_path (path : Path) : Handler unit :=
  fun s => (Returned (),
            {| scopes := scopes s; messages := messages s;
               canvas := {| paths := paths (canvas s) ++ [path];
                            resolution := resolution (canvas s) |} |}).

(** ** The scope stack

    Modelled from the spec (section 4.1): the class of [system.state] is not
    among the sources. *)

(** [open_new_scope()]: pushes a new empty frame. *)
Definition open_new_scope : Handler unit :=
  fun s => (Returned (),
            {| scopes := scopes s ++ [∅]; messages := messages s; canvas := canvas s |}).

(** [define_variable_with_value(name, value)]: binds the name in the innermost
    frame and returns that frame's identifier. *)
Definition define_variable_with_value (name : string) (v : Value) : Handler nat :=
  fun s =>
    let current_scope := pred (length (scopes s)) in
    (Returned current_scope,
     {| scopes := alter (insert name v) current_scope (scopes s);
        messages := messages s; canvas := canvas s |}).

(** [set_value_for_variable(name, value, scope)]: updates the binding in the
    frame with the given identifier, without any search. *)
Definition set_value_for_variable (name : string) (v : Value) (scope : nat) : Handler unit :=
  fun s => (Returned (),
            {| scopes := alter (insert name v) scope (scopes s);
               messages := messages s; canvas := canvas s |}).

(** [close_scope()]: pops the innermost frame; [false] when only the root
    frame remains. *)
Definition close_scope : Handler bool :=
  fun s =>
    if decide (length (scopes s) <= 1) then (Returned false, s)
    else (Returned true,
          {| scopes := removelast (scopes s); messages := messages s; canvas := canvas s |}).

(** Variable lookup, innermost frame first. *)
Fixpoint lookup_variable (name : string) (frames : list (gmap string Value)) : option Value :=
  match frames with
  | [] => None
  | frame :: inner =>
      match lookup_variable name inner with
      | Some v => Some v
      | None => frame !! name
      end
  end.

(** ** The argument binder

    Modelled from the spec (section 4.2): [interpret_arguments_from_function_call]
    and the [..._value_for_parameter] helpers are members of [Interpreter]
    whose definitions are not among the sources. *)

Fixpoint argument_named (name : string) (args : list (string * Expression)) : option Expression :=
  match args with
  | [] => None
  | (n, e) :: rest => if decide (n = name) then Some e else argument_named name rest
  end.

(** Evaluates the arguments with the given names, in order, under the current
    scope stack, and stores each value under its name. *)
Fixpoint interpret_arguments (function_call : ParseResult) (names : list string)
    (interpreted_arguments : gmap string Value) : Handler (gmap string Value) :=
  match names with
  | [] => mret interpreted_arguments
  | name :: rest =>
      match argument_named name (arguments function_call) with
      | None => print_error_message MissingArgument ;; return_false
      | Some e =>
          fun s =>
            match e (scopes s) with
            | inr v => interpret_arguments function_call rest
                         (<[name := v]> interpreted_arguments) s
            | inl err => (print_error_message err ;; return_false) s
            end
      end
  end.

(** [interpret_arguments_from_function_call(function_call, interpreted_arguments,
    parameters_to_interpret)]: all the arguments of the call when no names are
    given. *)
Definition interpret_arguments_from_function_call (function_call : ParseResult)
    (interpreted_arguments : gmap string Value)
    (parameters_to_interpret : option (list string)) : Handler (gmap string Value) :=
  interpret_arguments function_call
    (default (fst <$> arguments function_call) parameters_to_interpret)
    interpreted_arguments.

(** [number_value_for_parameter(parameter, interpreted_arguments, value)] *)
Definition number_value_for_parameter (parameter : string)
    (interpreted_arguments : gmap string Value) : Handler float :=
  match interpreted_arguments !! parameter with
  | None => print_error_message MissingArgument ;; return_false
  | Some (VNumber x) => mret x
  | Some _ => print_error_message TypeMismatch ;; return_false
  end.

(** [pol_value_for_parameter(parameter, interpreted_arguments, value)]: the
    value must be a property map of type "Pol" with numbers "r" and "phi". *)
Definition pol_value_for_parameter (parameter : string)
    (interpreted_arguments : gmap string Value) : Handler Pol :=
  match interpreted_arguments !! parameter with
  | None => print_error_message MissingArgument ;; return_false
  | Some (VRecord m) =>
      match m !! type_string, m !! "r", m !! "phi" with
      | Some (VString "Pol"), Some (VNumber radius), Some (VNumber angle) =>
          mret (mkPol radius angle)
      | _, _, _ => print_error_message TypeMismatch ;; return_false
      end
  | Some _ => print_error_message TypeMismatch ;; return_false
  end.

(** * The handlers *)

Section Handlers.
Context {geometry : PolGeometry}.

(** ** The endpoints of a curve

    Both curve handlers start with the same statements: only the arguments
    [from] and [to] are interpreted (the last argument may contain the hidden
    variable [_p], which is not defined yet), and both must be points. *)
Definition curve_endpoints (function_call : ParseResult) : Handler (Pol * Pol) :=
  interpreted_arguments ←
    interpret_arguments_from_function_call function_call ∅ (Some ["from"; "to"]);
  from ← pol_value_for_parameter "from" interpreted_arguments;
  to ← pol_value_for_parameter "to" interpreted_arguments;
  mret (from, to).

(** ** [curve_angle] *)

(** The inner loop of the radii of [function_curve_angle]:
    [while (additional_r < radius + step_size)
       { radii.push_back(additional_r); additional_r += additional_step_size; }]
    where [bound] is [radius + step_size]. *)
Fixpoint curve_angle_additional_radii (fuel : nat) (additional_step_size bound : float)
    (additional_r : float) (radii : list float) : option (list float) :=
  match fuel with
  | O => None
  | S fuel' =>
      if (additional_r <? bound)%float then
        curve_angle_additional_radii fuel' additional_step_size bound
          (additional_r + additional_step_size)%float (radii ++ [additional_r])
      else Some radii
  end.

(** The loop that collects the radii of [function_curve_angle]:
    [while (radius <= to.r) { radii.push_back(radius); ...; radius += step_size; }].
    Every evaluation of a loop condition takes one unit of fuel; the inner
    loop of each round gets [inner_fuel]. *)
Fixpoint curve_angle_radii (inner_fuel fuel : nat)
    (from_r to_r step_size additional_detail_threshold additional_step_size : float)
    (radius : float) (radii : list float) : option (list float) :=
  match fuel with
  | O => None
  | S fuel' =>
      if (radius <=? to_r)%float then
        let radii := radii ++ [radius] in
        radii ←
          (if (radius <? from_r + additional_detail_threshold)%float then
             let additional_r := (radius + additional_step_size)%float in
             curve_angle_additional_radii inner_fuel additional_step_size
               (radius + step_size)%float additional_r radii
           else Some radii);
        curve_angle_radii inner_fuel fuel' from_r to_r step_size
          additional_detail_threshold additional_step_size
          (radius + step_size)%float radii
      else Some radii
  end.

(** The loop over the radii of [function_curve_angle]:
    [for (const double &r : radii) { ... path.push_back(point); }]. *)
Fixpoint curve_angle_points (function_call : ParseResult) (from : Pol)
    (current_point : gmap string Value) (current_scope : nat) (radii : list float)
    (interpreted_angle_argument : gmap string Value) (path : Path) : Handler Path :=
  match radii with
  | [] => mret path
  | radius :: rest =>
      let current_point := <["r" := VNumber radius]> current_point in
      set_value_for_variable "_p" (VRecord current_point) current_scope ;;
      interpreted_angle_argument ←
        interpret_arguments_from_function_call function_call
          interpreted_angle_argument (Some ["angle"]);
      angle ← number_value_for_parameter "angle" interpreted_angle_argument;
      let point := mkPol radius (phi from + angle)%float in
      curve_angle_points function_call from current_point current_scope rest
        interpreted_angle_argument (push_back point path)
  end.

(** [if (from.r > to.r) { Pol temp = from; from = to; to = from; }]: the
    three assignments, in the order of the source. *)
Definition curve_angle_endpoints (from to : Pol) : Pol * Pol :=
  if (r to <? r from)%float then
    let temp := from in
    let from := to in
    let to := from in
    (from, to)
  else (from, to).

(** The statements of [function_curve_angle] after the two endpoints have
    been obtained. *)
Definition curve_angle_between (fuel : nat) (function_call : ParseResult)
    (from to : Pol) : Handler (option Value) :=
  if negb (phi from =? phi to)%float then
    print_error_message InconsistentEndpoints ;; return_false
  else
    let '(from, to) := curve_angle_endpoints from to in
    let path := {| points := []; is_closed := false |} in
    resolution ← get_resolution;
    let step_size := ((r to - r from) / resolution)%float in
    let additional_detail_threshold := (5.0 * step_size)%float in
    let additional_detail_points := (resolution / 5.0)%float in
    let additional_step_size := (step_size / additional_detail_points)%float in
    if negb (0 <? step_size)%float then
      print_error_message NonPositiveStep ;; return_false
    else
      let radius := r from in
      open_new_scope ;;
      let current_point := pol_property_map radius (phi from) in
      current_scope ← define_variable_with_value "_p" (VRecord current_point);
      radii ← lift_fuel
        (curve_angle_radii fuel fuel (r from) (r to) step_size
           additional_detail_threshold additional_step_size radius []);
      path ← curve_angle_points function_call from current_point current_scope
                radii ∅ path;
      closed ← close_scope;
      if negb closed then
        print_error_message ScopeCloseError ;; return_false
      else
        add_path path ;; mret None.

(** [Interpreter::function_curve_angle].  The value is the content of
    [result] when the handler returns [true]. *)
Definition function_curve_angle (fuel : nat) (function_call : ParseResult)
    : Handler (option Value) :=
  endpoints ← curve_endpoints function_call;
  curve_angle_between fuel function_call endpoints.1 endpoints.2.

(** ** [curve_distance] *)

(** [for (double radius = 0.0; radius < translated_to.r; radius += step_size)
      { radii.push_back(radius); }] *)
Fixpoint curve_distance_radii (fuel : nat) (bound step_size : float)
    (radius : float) (radii : list float) : option (list float) :=
  match fuel with
  | O => None
  | S fuel' =>
      if (radius <? bound)%float then
        curve_distance_radii fuel' bound step_size (radius + step_size)%float
          (radii ++ [radius])
      else Some radii
  end.

(** The reverse movement of [function_curve_distance], applied to a point of
    the reference ray: [rotate_by(-second_rotation_angle)], then
    [translate_horizontally_by(-translation_distance)], then
    [rotate_by(-rotation_angle)]. *)
Definition reverse_movement (rotation_angle translation_distance
    second_rotation_angle : float) (point : Pol) : Pol :=
  let rotated := rotate_by (mkPol (r point) (phi point)) (- second_rotation_angle)%float in
  let translated :=
    translate_horizontally_by (mkPol (r rotated) (phi rotated))
      (- translation_distance)%float in
  rotate_by (mkPol (r translated) (phi translated)) (- rotation_angle)%float.

(** The point that [function_curve_distance] creates from the distance at the
    position [radius] of the reference ray, before the reverse movement. *)
Definition curve_distance_resulting_point (distance radius : float) : Pol :=
  let resulting_radius := abs distance in
  let resulting_angle := (M_PI / 2)%float in
  let resulting_angle :=
    if (distance <? 0)%float then (2.0 * M_PI - M_PI / 2.0)%float else resulting_angle in
  translate_horizontally_by (mkPol resulting_radius resulting_angle) radius.

(** The loop over the radii of [function_curve_distance]. *)
Fixpoint curve_distance_points (function_call : ParseResult)
    (rotation_angle translation_distance second_rotation_angle : float)
    (current_point : gmap string Value) (current_scope : nat) (radii : list float)
    (interpreted_distance_argument : gmap string Value) (path : Path) : Handler Path :=
  match radii with
  | [] => mret path
  | radius :: rest =>
      let current_helper_point := mkPol radius 0.0 in
      let current_helper_point_on_line :=
        reverse_movement rotation_angle translation_distance second_rotation_angle
          current_helper_point in
      let current_point := <["r" := VNumber (r current_helper_point_on_line)]> current_point in
      let current_point := <["phi" := VNumber (phi current_helper_point_on_line)]> current_point in
      set_value_for_variable "_p" (VRecord current_point) current_scope ;;
      interpreted_distance_argument ←
        interpret_arguments_from_function_call function_call
          interpreted_distance_argument (Some ["distance"]);
      distance ← number_value_for_parameter "distance" interpreted_distance_argument;
      let resulting_point := curve_distance_resulting_point distance radius in
      let final_resulting_point :=
        reverse_movement rotation_angle translation_distance second_rotation_angle
          resulting_point in
      curve_distance_points function_call rotation_angle translation_distance
        second_rotation_angle current_point current_scope rest
        interpreted_distance_argument (push_back final_resulting_point path)
  end.

(** The statements of [function_curve_distance] after the two endpoints have
    been obtained. *)
Definition curve_distance_between (fuel : nat) (function_call : ParseResult)
    (from to : Pol) : Handler (option Value) :=
  let path := {| points := []; is_closed := false |} in
  resolution ← get_resolution;
  let step_size := (distance_to from to / resolution)%float in
  if negb (0 <? step_size)%float then
    print_error_message NonPositiveStep ;; return_false
  else
    let radius := r from in
    open_new_scope ;;
    let current_point := pol_property_map radius (phi from) in
    current_scope ← define_variable_with_value "_p" (VRecord current_point);
    let rotation_angle := (- phi from)%float in
    let rotated_to := rotate_by (mkPol (r to) (phi to)) rotation_angle in
    let translation_distance := (- r from)%float in
    let translated_to :=
      translate_horizontally_by (mkPol (r rotated_to) (phi rotated_to))
        translation_distance in
    let second_rotation_angle := (- phi translated_to)%float in
    radii ← lift_fuel (curve_distance_radii fuel (r translated_to) step_size 0.0 []);
    path ← curve_distance_points function_call rotation_angle translation_distance
              second_rotation_angle current_point current_scope radii ∅ path;
    closed ← close_scope;
    if negb closed then
      print_error_message ScopeCloseError ;; return_false
    else
      add_path path ;; mret None.

(** [Interpreter::function_curve_distance]. *)
Definition function_curve_distance (fuel : nat) (function_call : ParseResult)
    : Handler (option Value) :=
  endpoints ← curve_endpoints function_call;
  curve_distance_between fuel function_call endpoints.1 endpoints.2.

(** ** [random], [set_resolution], [theta] *)

(** [Interpreter::function_random].  [distribution from to] stands for the
    number that [std::uniform_real_distribution<double>(from, to)] draws from
    the Mersenne twister seeded by [std::random_device] in this call. *)
Definition function_random (distribution : float -> float -> float)
    (function_call : ParseResult) : Handler (option Value) :=
  interpreted_arguments ←
    interpret_arguments_from_function_call function_call ∅ None;
  from ← number_value_for_parameter "from" interpreted_arguments;
  to ← number_value_for_parameter "to" interpreted_arguments;
  if (to <? from)%float then
    print_error_message InvalidRange ;; return_false
  else
    mret (Some (VNumber (distribution from to))).

(** [Interpreter::function_set_resolution]. *)
Definition function_set_resolution (function_call : ParseResult)
    : Handler (option Value) :=
  interpreted_arguments ←
    interpret_arguments_from_function_call function_call ∅ None;
  x ← number_value_for_parameter "x" interpreted_arguments;
  if negb (0.0 <? x)%float then
    print_error_message InvalidResolution ;; return_false
  else
    set_resolution x ;;
    mret (Some (VNumber x)).

(** [Interpreter::function_theta]. *)
Definition function_theta (function_call : ParseResult) : Handler (option Value) :=
  interpreted_arguments ←
    interpret_arguments_from_function_call function_call ∅ None;
  r_1 ← number_value_for_parameter "r1" interpreted_arguments;
  r_2 ← number_value_for_parameter "r2" interpreted_arguments;
  R ← number_value_for_parameter "R" interpreted_arguments;
  if (R <? r_1)%float || (R <? r_2)%float then
    print_error_message InvalidTriangle ;; return_false
  else if (r_1 + r_2 <? R)%float then
    print_error_message InvalidTriangle ;; return_false
  else
    let theta := theta r_1 r_2 R in
    if (theta <? 0.0)%float then
      print_error_message NumericalFailure ;; return_false
    else
      mret (Some (VNumber theta)).

End Handlers.

(** * Vocabulary of the statements *)

(** The interpreter after one more message to the diagnostics sink. *)
Definition report (e : Error) (s : Interpreter) : Interpreter :=
  {| scopes := scopes s; messages := messages s ++ [e]; canvas := canvas s |}.

(** The interpreter while the samples are evaluated: one frame more than
    before the call, holding only [_p]. *)
Definition with_hidden_frame (frame : gmap string Value) (s : Interpreter) : Interpreter :=
  {| scopes := scopes s ++ [frame]; messages := messages s; canvas := canvas s |}.

(** The frame that holds only the hidden variable [_p], bound to [point]. *)
Definition hidden_frame (point : Pol) : gmap string Value :=
  {[ "_p" := VRecord (pol_property_map (r point) (phi point)) ]}.

(** The number that the argument [name] of a call evaluates to under a scope
    stack, if it evaluates to a number. *)
Definition argument_number (function_call : ParseResult) (name : string)
    (frames : list (gmap string Value)) : option float :=
  match argument_named name (arguments function_call) with
  | Some e => match e frames with inr (VNumber x) => Some x | _ => None end
  | None => None
  end.

(** The path point that [curve_angle] creates for a radius: the angle
    argument evaluates to a number under the scope stack extended by the
    frame of [_p], bound to the point at that radius on the ray of [from],
    and the point has that radius and the angle [from.phi + angle]. *)
Definition angle_sample_point (function_call : ParseResult)
    (frames : list (gmap string Value)) (from : Pol) (radius : float) (point : Pol) : Prop :=
  exists angle,
    argument_number function_call "angle"
      (frames ++ [hidden_frame (mkPol radius (phi from))]) = Some angle
    /\ point = mkPol radius (phi from + angle)%float.

(** The step size of [curve_angle], computed from the endpoints after the
    exchange. *)
Definition curve_angle_step_size (from to : Pol) (canvas_resolution : float) : float :=
  let endpoints := curve_angle_endpoints from to in
  ((r endpoints.2 - r endpoints.1) / canvas_resolution)%float.

(** The radii that [curve_angle] collects for two endpoints and a resolution,
    if the two loops end within the fuel. *)
Definition curve_angle_all_radii (fuel : nat) (from to : Pol) (canvas_resolution : float)
    : option (list float) :=
  let endpoints := curve_angle_endpoints from to in
  let step_size := curve_angle_step_size from to canvas_resolution in
  curve_angle_radii fuel fuel (r endpoints.1) (r endpoints.2) step_size
    (5.0 * step_size)%float (step_size / (canvas_resolution / 5.0))%float
    (r endpoints.1) [].

(** The [k]-th sample position along the reference ray of [curve_distance]:
    [0.0] increased [k] times by [step_size]. *)
Definition sample_position (step_size : float) (k : nat) : float :=
  Nat.iter k (fun radius => (radius + step_size)%float) 0.0%float.

(** The angle of the offset point of [curve_distance] for a distance:
    [M_PI / 2], or [(2.0 * M_PI) - (M_PI / 2.0)] if the distance is negative. *)
Definition offset_angle (distance : float) : float :=
  if (distance <? 0)%float then (2.0 * M_PI - M_PI / 2.0)%float else (M_PI / 2)%float.

(** [std::uniform_real_distribution<double>(a, b)] applied to a generator, as
    the C++ library computes it: [generate_canonical(g) * (b - a) + a], where
    [u] stands for the number that [std::generate_canonical] gets from the
    generator. *)
Definition uniform_real_distribution (u a b : float) : float :=
  (u * (b - a) + a)%float.

(** The numbers that [std::generate_canonical] gives: [0 <= u < 1]. *)
Definition canonical (u : float) : Prop :=
  (0 <=? u)%float = true /\ (u <? 1)%float = true.

(** In the words of the specification: the endpoints of [curve_angle] after
    the exchange, which swaps the roles of [from] and [to] when
    [from.r > to.r].  To be compared with [curve_angle_endpoints], the
    exchange as the code performs it. *)
Definition swapped_endpoints (from to : Pol) : Pol * Pol :=
  if (r to <? r from)%float then (to, from) else (from, to).

(** The step size of [curve_angle] computed from the swapped endpoints. *)
Definition swapped_step_size (from to : Pol) (canvas_resolution : float) : float :=
  let endpoints := swapped_endpoints from to in
  ((r endpoints.2 - r endpoints.1) / canvas_resolution)%float.

Section Vocabulary.
Context {geometry : PolGeometry}.

(** The step size of [curve_distance]. *)
Definition curve_distance_step_size (from to : Pol) (canvas_resolution : float) : float :=
  (distance_to from to / canvas_resolution)%float.

(** The change of frame of [curve_distance]: [to] rotated by [-from.phi] and
    translated horizontally by [-from.r]. *)
Definition translated_to (from to : Pol) : Pol :=
  translate_horizontally_by (rotate_by to (- phi from)%float) (- r from)%float.

(** The inverse transform chain in the words of the specification: rotate by
    the negative of the second rotation angle, translate horizontally by the
    negative of the translation distance, rotate by the negative of the first
    rotation angle. *)
Definition inverse_transform_chain (rotation_angle translation_distance
    second_rotation_angle : float) (point : Pol) : Pol :=
  rotate_by
    (translate_horizontally_by (rotate_by point (- second_rotation_angle)%float)
       (- translation_distance)%float)
    (- rotation_angle)%float.

(** The inverse chain for the segment from [from] to [to]: the first rotation
    angle is [-from.phi], the translation distance [-from.r], the second
    rotation angle [-translated_to.phi]. *)
Definition back_to_segment (from to : Pol) (point : Pol) : Pol :=
  inverse_transform_chain (- phi from)%float (- r from)%float
    (- phi (translated_to from to))%float point.

(** The path point of [curve_distance] for the sample position [radius] and
    the distance evaluated there, in the words of the specification: the
    offset point at the given angle, translated horizontally by [radius], then
    mapped back by the inverse chain. *)
Definition offset_path_point (from to : Pol) (radius distance offset_angle : float) : Pol :=
  back_to_segment from to
    (translate_horizontally_by (mkPol (abs distance) offset_angle) radius).

(** The path point that [curve_distance] creates for a sample position: the
    distance argument evaluates to a number under the scope stack extended
    by the frame of [_p], bound to the point of the segment for that
    position, and the point is the offset point for that distance. *)
Definition distance_sample_point (function_call : ParseResult)
    (frames : list (gmap string Value)) (from to : Pol) (radius : float) (point : Pol) : Prop :=
  exists distance,
    argument_number function_call "distance"
      (frames ++ [hidden_frame (back_to_segment from to (mkPol radius 0))]) = Some distance
    /\ point = offset_path_point from to radius distance (offset_angle distance).

End Vocabulary.

(** * Sample inputs *)

(** Modelled from the spec: argument expressions used in the examples: a
    number, a string, a point, a variable, and a numeric property of the
    point held by a variable. *)
Definition number (x : float) : Expression := fun _ => inr (VNumber x).

Definition text (t : string) : Expression := fun _ => inr (VString t).

Definition pol (radius angle : float) : Expression :=
  fun _ => inr (VRecord (pol_property_map radius angle)).

Definition variable (name : string) : Expression :=
  fun frames =>
    match lookup_variable name frames with
    | Some v => inr v
    | None => inl UndefinedVariable
    end.

Definition property (name field : string) : Expression :=
  fun frames =>
    match lookup_variable name frames with
    | Some (VRecord m) =>
        match m !! field with
        | Some v => inr v
        | None => inl TypeMismatch
        end
    | Some _ => inl TypeMismatch
    | None => inl UndefinedVariable
    end.

(** An interpreter with only the root frame, nothing drawn yet. *)
Definition initial (canvas_resolution : float) : Interpreter :=
  {| scopes := [∅]; messages := [];
     canvas := {| paths := []; resolution := canvas_resolution |} |}.

Definition curve_angle_call (from to angle : Expression) : ParseResult :=
  {| value := "curve_angle";
     arguments := [("from", from); ("to", to); ("angle", angle)] |}.

Definition curve_distance_call (from to distance : Expression) : ParseResult :=
  {| value := "curve_distance";
     arguments := [("from", from); ("to", to); ("distance", distance)] |}.

Definition set_resolution_call (x : Expression) : ParseResult :=
  {| value := "set_resolution"; arguments := [("x", x)] |}.

Definition random_call (from to : Expression) : ParseResult :=
  {| value := "random"; arguments := [("from", from); ("to", to)] |}.

Definition theta_call (r1 r2 R : Expression) : ParseResult :=
  {| value := "theta"; arguments := [("r1", r1); ("r2", r2); ("R", R)] |}.

(** A sample instance of the operations of [Pol], used only to run the
    handlers in the examples.  It is exact for points on the ray of angle 0
    moved along that ray: rotation adds to the angle, a horizontal
    translation adds to the radius, the distance of two points is the
    difference of their radii.  [theta] gives the sentinel -1 for a triangle
    with a side of length 0 and 0 otherwise. *)
Definition ray_geometry : PolGeometry := {|
  rotate_by p angle := mkPol (r p) (phi p + angle)%float;
  translate_horizontally_by p distance := mkPol (r p + distance)%float (phi p);
  distance_to p q := abs (r p - r q)%float;
  theta r_1 r_2 R := if (r_1 * r_2 =? 0)%float then (-1)%float else 0%float
|}.

(** [curve_distance(from: (1,0), to: (2,0), distance: _p.r)] with
    resolution 4, in the sample geometry. *)
Definition sample_curve_distance : Outcome (option Value) * Interpreter :=
  function_curve_distance (geometry := ray_geometry) 100
    (curve_distance_call (pol 1 0) (pol 2 0) (property "_p" "r")) (initial 4).

(** [curve_angle(from: (1,0), to: (2,0), angle: _p.r)] with resolution 4. *)
Definition sample_curve_angle : Outcome (option Value) * Interpreter :=
  function_curve_angle 100
    (curve_angle_call (pol 1 0) (pol 2 0) (property "_p" "r")) (initial 4).

(** A sample distribution: it always draws [a + (b - a) * 0.5]. *)
Definition midpoint (a b : float) : float := (a + (b - a) * 0.5)%float.

(** * The other built-in functions *)

(** ** The operations of the canvas *)

(** A circle: [Circle mark(center, radius)]. *)
Record Circle : Type := mkCircle { center : Pol; radius : float }.

(** The operations of [Canvas] that the handlers call besides [add_path].
    [canvas.hpp] is not among the sources, so they are taken as parameters:
    [clear] and [add_mark] change the canvas they are called on (here they
    return the changed canvas), the static functions [path_for_circle] and
    [path_for_line] fill a path from their arguments. *)
Class CanvasOperations : Type := {
  clear : Canvas -> Canvas;
  add_mark : Circle -> Canvas -> Canvas;
  path_for_circle : Pol -> float -> float -> Path;
  path_for_line : Pol -> Pol -> float -> Path
}.

(** A change of the canvas by one of its operations. *)
Definition change_canvas (operation : Canvas -> Canvas) : Handler unit :=
  fun s => (Returned (),
            {| scopes := scopes s; messages := messages s;
               canvas := operation (canvas s) |}).

Section OtherHandlers.
Context {geometry : PolGeometry} {drawing : CanvasOperations}.

(** ** [clear], [circle], [line], [mark] *)

(** [Interpreter::function_clear]. *)
Definition function_clear (function_call : ParseResult) : Handler (option Value) :=
  interpreted_arguments ←
    interpret_arguments_from_function_call function_call ∅ None;
  if negb (bool_decide (size interpreted_arguments = 0)) then
    print_error_message ExtraneousArgument ;; return_false
  else
    change_canvas clear ;;
    mret None.

(** [Interpreter::function_circle]. *)
Definition function_circle (function_call : ParseResult) : Handler (option Value) :=
  interpreted_arguments ←
    interpret_arguments_from_function_call function_call ∅ None;
  center ← pol_value_for_parameter "center" interpreted_arguments;
  radius ← number_value_for_parameter "radius" interpreted_arguments;
  resolution ← get_resolution;
  let circle_path := path_for_circle center radius resolution in
  add_path circle_path ;;
  mret None.

(** [Interpreter::function_line]. *)
Definition function_line (function_call : ParseResult) : Handler (option Value) :=
  interpreted_arguments ←
    interpret_arguments_from_function_call function_call ∅ None;
  from ← pol_value_for_parameter "from" interpreted_arguments;
  to ← pol_value_for_parameter "to" interpreted_arguments;
  resolution ← get_resolution;
  let line_path := path_for_line from to resolution in
  add_path line_path ;;
  mret None.

(** [Interpreter::function_mark]. *)
Definition function_mark (function_call : ParseResult) : Handler (option Value) :=
  interpreted_arguments ←
    interpret_arguments_from_function_call function_call ∅ None;
  center ← pol_value_for_parameter "center" interpreted_arguments;
  radius ← number_value_for_parameter "radius" interpreted_arguments;
  let mark := mkCircle center radius in
  change_canvas (add_mark mark) ;;
  mret None.

(** ** [sqrt]

    [::sqrt] is the correctly rounded square root of binary64, which is the
    primitive [sqrt] of Rocq's floats. *)

(** [Interpreter::function_sqrt]. *)
Definition function_sqrt (function_call : ParseResult) : Handler (option Value) :=
  interpreted_arguments ←
    interpret_arguments_from_function_call function_call ∅ None;
  x ← number_value_for_parameter "x" interpreted_arguments;
  mret (Some (VNumber (sqrt x))).

(** ** [rotate], [translate] *)

(** [Interpreter::function_rotate]. *)
Definition function_rotate (function_call : ParseResult) : Handler (option Value) :=
  interpreted_arguments ←
    interpret_arguments_from_function_call function_call ∅ None;
  point ← pol_value_for_parameter "point" interpreted_arguments;
  angle ← number_value_for_parameter "by" interpreted_arguments;
  let point := rotate_by point angle in
  let property_map := pol_property_map (r point) (phi point) in
  mret (Some (VRecord property_map)).

(** [Interpreter::function_translate]. *)
Definition function_translate (function_call : ParseResult) : Handler (option Value) :=
  interpreted_arguments ←
    interpret_arguments_from_function_call function_call ∅ None;
  point ← pol_value_for_parameter "point" interpreted_arguments;
  distance ← number_value_for_parameter "by" interpreted_arguments;
  let point := translate_horizontally_by point distance in
  let property_map := pol_property_map (r point) (phi point) in
  mret (Some (VRecord property_map)).

End OtherHandlers.

(** * Vocabulary of the statements about the other functions *)

(** The interpreter after one more path on the canvas. *)
Definition drawn (path : Path) (s : Interpreter) : Interpreter :=
  {| scopes := scopes s; messages := messages s;
     canvas := {| paths := paths (canvas s) ++ [path];
                  resolution := resolution (canvas s) |} |}.

(** The interpreter with another canvas. *)
Definition on_canvas (c : Canvas) (s : Interpreter) : Interpreter :=
  {| scopes := scopes s; messages := messages s; canvas := c |}.

(** The interpreted arguments hold a point under [name]: a property map of
    type "Pol" whose "r" and "phi" are the numbers of [point]. *)
Definition bound_point (interpreted : gmap string Value) (name : string) (point : Pol) : Prop :=
  exists m,
    interpreted !! name = Some (VRecord m)
    /\ m !! type_string = Some (VString "Pol")
    /\ m !! "r" = Some (VNumber (r point))
    /\ m !! "phi" = Some (VNumber (phi point)).

(** Where the loops of [curve_angle] may put a radius [x]: it is a regular
    sample, at most [to_r], or it is an additional sample of the detailed
    region, strictly below the regular sample that follows a regular sample
    [regular] of the list which lies below the detail threshold. *)
Definition within_a_step (from_r to_r step_size additional_detail_threshold : float)
    (radii : list float) (x : float) : Prop :=
  (x <=? to_r)%float = true
  \/ exists regular,
       regular ∈ radii
       /\ (regular <=? to_r)%float = true
       /\ (regular <? from_r + additional_detail_threshold)%float = true
       /\ (x <? regular + step_size)%float = true.

(** * Sample inputs for the other functions *)

Definition circle_call (center radius : Expression) : ParseResult :=
  {| value := "circle"; arguments := [("center", center); ("radius", radius)] |}.


Definition sqrt_call (x : Expression) : ParseResult :=
  {| value := "sqrt"; arguments := [("x", x)] |}.

Definition rotate_call (point angle : Expression) : ParseResult :=
  {| value := "rotate"; arguments := [("point", point); ("by", angle)] |}.

(** A sample instance of the operations of the canvas, used only to run the
    handlers in the examples: clearing drops the paths, a mark leaves the
    paths as they are, a line is the open path of its two endpoints and a
    circle the closed path of the point of angle 0 on it. *)
Definition sample_drawing : CanvasOperations := {|
  clear c := {| paths := []; resolution := resolution c |};
  add_mark mark c := c;
  path_for_circle center radius canvas_resolution :=
    {| points := [mkPol radius 0]; is_closed := true |};
  path_for_line from to canvas_resolution :=
    {| points := [from; to]; is_closed := false |}
|}.
(** * Properties *)

(** ** Running handlers *)

Lemma bind_run {A B : Type} (m : Handler A) (f : A -> Handler B) (s : Interpreter) :
  (m ≫= f) s =
    match m s with
    | (Returned a, s') => f a s'
    | (Failed, s') => (Failed, s')
    | (OutOfFuel, s') => (OutOfFuel, s')
    end.
Proof. reflexivity. Qed.

Lemma ret_bind_run {A B : Type} (a : A) (f : A -> Handler B) (s : Interpreter) :
  (mret a ≫= f) s = f a s.
Proof. reflexivity. Qed.

Lemma fail_run {A : Type} (e : Error) (s : Interpreter) :
  (print_error_message e ;; (return_false : Handler A)) s = (Failed, report e s).
Proof. reflexivity. Qed.

(** Interpreting arguments changes the interpreter only by the message of a
    failure. *)
Lemma interpret_arguments_run function_call names interpreted s :
  (exists interpreted', interpret_arguments function_call names interpreted s
                        = (Returned interpreted', s))
  \/ (exists e, interpret_arguments function_call names interpreted s
                = (Failed, report e s)).
Proof.
  revert interpreted. induction names as [|name rest IH]; intros interpreted; simpl.
  - left. eexists. reflexivity.
  - destruct (argument_named name (arguments function_call)) as [e|].
    + destruct (e (scopes s)) as [err|v].
      * right. exists err. reflexivity.
      * apply IH.
    + right. exists MissingArgument. reflexivity.
Qed.

Lemma number_value_for_parameter_run parameter interpreted s :
  (exists x, interpreted !! parameter = Some (VNumber x)
             /\ number_value_for_parameter parameter interpreted s = (Returned x, s))
  \/ (exists e, number_value_for_parameter parameter interpreted s = (Failed, report e s)).
Proof.
  unfold number_value_for_parameter.
  destruct (interpreted !! parameter) as [[x| | |]|];
    first [ left; eexists; split; reflexivity | right; eexists; apply fail_run ].
Qed.

Lemma pol_value_for_parameter_run parameter interpreted s :
  (exists p, pol_value_for_parameter parameter interpreted s = (Returned p, s))
  \/ (exists e, pol_value_for_parameter parameter interpreted s = (Failed, report e s)).
Proof.
  unfold pol_value_for_parameter.
  destruct (interpreted !! parameter) as [[x| | |m]|];
    try (right; eexists; apply fail_run).
  repeat case_match; first [ left; eexists; reflexivity | right; eexists; apply fail_run ].
Qed.

(** Obtaining the endpoints changes the interpreter only by the message of
    a failure. *)
Lemma curve_endpoints_run function_call s :
  (exists from to, curve_endpoints function_call s = (Returned (from, to), s))
  \/ (exists e, curve_endpoints function_call s = (Failed, report e s)).
Proof.
  unfold curve_endpoints, interpret_arguments_from_function_call.
  rewrite bind_run.
  destruct (interpret_arguments_run function_call
              (default (fst <$> arguments function_call) (Some ["from"; "to"])) ∅ s)
    as [[interpreted ->]|[e ->]]; [|right; eexists; reflexivity].
  rewrite bind_run.
  destruct (pol_value_for_parameter_run "from" interpreted s)
    as [[from ->]|[e ->]]; [|right; eexists; reflexivity].
  rewrite bind_run.
  destruct (pol_value_for_parameter_run "to" interpreted s)
    as [[to ->]|[e ->]]; [|right; eexists; reflexivity].
  left. exists from, to. reflexivity.
Qed.

(** ** Comparisons of binary64 numbers *)

Lemma SFcompare_antisym (x y : spec_float) :
  SFcompare y x = CompOpp <$> SFcompare x y.
Proof.
  destruct x as [sx|sx| |sx mx ex], y as [sy|sy| |sy my ey]; simpl;
    try reflexivity; try (destruct sx; reflexivity); try (destruct sy; reflexivity);
    try (destruct sx, sy; reflexivity).
  pose proof (Pos.compare_cont_antisym mx my Eq) as Hm. simpl in Hm.
  rewrite (Z.compare_antisym ex ey), <- Hm.
  destruct sx, sy; simpl; try reflexivity;
    destruct (ex ?= ey)%Z; simpl; try reflexivity;
    destruct (Pos.compare_cont Eq mx my); reflexivity.
Qed.

Lemma SFcompare_refl (x : spec_float) :
  SFcompare x x = match x with S754_nan => None | _ => Some Eq end.
Proof.
  destruct x as [sx|sx| |sx mx ex]; simpl; try reflexivity.
  - destruct sx; reflexivity.
  - rewrite Z.compare_refl, Pos.compare_cont_refl. destruct sx; reflexivity.
Qed.

(** [a <= b] excludes [b < a]. *)
Lemma leb_true_ltb_false (a b : float) :
  (a <=? b)%float = true -> (b <? a)%float = false.
Proof.
  rewrite leb_spec, ltb_spec. unfold SFleb, SFltb.
  rewrite (SFcompare_antisym (Prim2SF a) (Prim2SF b)).
  destruct (SFcompare (Prim2SF a) (Prim2SF b)) as [[]|]; simpl; congruence.
Qed.

(** [x] is not strictly positive exactly when it is at most zero or not a
    number. *)
Lemma not_positive_iff (x : float) :
  (0 <? x)%float = false <-> (x <=? 0)%float = true \/ is_nan x = true.
Proof.
  unfold is_nan. rewrite leb_spec, ltb_spec, FloatAxioms.eqb_spec. unfold SFleb, SFltb, SFeqb.
  rewrite (SFcompare_antisym (Prim2SF x) (Prim2SF 0)), SFcompare_refl.
  destruct (Prim2SF x) as [sx|sx| |sx mx ex]; simpl;
    try destruct sx; simpl; intuition congruence.
Qed.

(** A number minus itself is zero, or not a number. *)
Lemma SFsub_diag (x : spec_float) :
  SF64sub x x = S754_zero false \/ SF64sub x x = S754_nan.
Proof.
  destruct x as [sx|sx| |sx mx ex]; cbn [SF64sub SFsub].
  - left. destruct sx; reflexivity.
  - right. destruct sx; reflexivity.
  - right. reflexivity.
  - left. rewrite Z.sub_diag. reflexivity.
Qed.

(** The quotient of a number minus itself is never strictly positive. *)
Lemma sub_diag_div_not_positive (x y : float) :
  (0 <? (x - x) / y)%float = false.
Proof.
  rewrite ltb_spec, div_spec, sub_spec. unfold SFltb.
  change (Prim2SF 0) with (S754_zero false).
  destruct (SFsub_diag (Prim2SF x)) as [-> | ->];
    destruct (Prim2SF y) as [sy|sy| |sy my ey]; reflexivity.
Qed.

(** ** The scope of the hidden variable *)

Lemma alter_innermost (f : gmap string Value -> gmap string Value)
    (frames : list (gmap string Value)) (frame : gmap string Value) :
  alter f (length frames) (frames ++ [frame]) = frames ++ [f frame].
Proof.
  induction frames as [|x frames IH]; simpl; [reflexivity|].
  f_equal. exact IH.
Qed.

(** Rebinding [_p] in the frame opened for it. *)
Lemma set_hidden_variable_run (v : Value) (frame : gmap string Value) (s : Interpreter) :
  set_value_for_variable "_p" v (length (scopes s)) (with_hidden_frame frame s)
  = (Returned (), with_hidden_frame (<["_p" := v]> frame) s).
Proof.
  unfold set_value_for_variable, with_hidden_frame. simpl.
  rewrite alter_innermost. reflexivity.
Qed.

(** Closing the scope opened for [_p]. *)
Lemma close_hidden_scope_run (frame : gmap string Value) (s : Interpreter) :
  scopes s <> [] ->
  close_scope (with_hidden_frame frame s) = (Returned true, s).
Proof.
  intros Hne. unfold close_scope, with_hidden_frame. simpl.
  destruct (decide (length (scopes s ++ [frame]) <= 1)) as [Hle|_].
  - rewrite length_app in Hle. simpl in Hle.
    destruct (scopes s); [congruence | simpl in Hle; lia].
  - rewrite removelast_last. destruct s; reflexivity.
Qed.

(** ** The runs of [curve_angle] *)

Lemma open_new_scope_run (s : Interpreter) :
  open_new_scope s = (Returned (), with_hidden_frame ∅ s).
Proof. reflexivity. Qed.

Lemma define_hidden_variable_run (v : Value) (frame : gmap string Value) (s : Interpreter) :
  define_variable_with_value "_p" v (with_hidden_frame frame s)
  = (Returned (length (scopes s)), with_hidden_frame (<["_p" := v]> frame) s).
Proof.
  unfold define_variable_with_value, with_hidden_frame. simpl.
  rewrite length_app, Nat.add_1_r. simpl.
  rewrite alter_innermost. reflexivity.
Qed.

(** When [from.r > to.r], the three assignments leave both endpoints equal
    to the original [to]. *)
Lemma curve_angle_endpoints_exchange from to :
  (r to <? r from)%float = true -> curve_angle_endpoints from to = (to, to).
Proof. unfold curve_angle_endpoints. intros ->. reflexivity. Qed.

Lemma curve_angle_between_inconsistent fuel function_call from to s :
  (phi from =? phi to)%float = false ->
  curve_angle_between fuel function_call from to s
  = (Failed, report InconsistentEndpoints s).
Proof. unfold curve_angle_between. intros ->. reflexivity. Qed.

Lemma curve_angle_between_non_positive fuel function_call from to s :
  (phi from =? phi to)%float = true ->
  (0 <? curve_angle_step_size from to (resolution (canvas s)))%float = false ->
  curve_angle_between fuel function_call from to s
  = (Failed, report NonPositiveStep s).
Proof.
  unfold curve_angle_between, curve_angle_step_size. intros -> Hstep. simpl.
  destruct (curve_angle_endpoints from to) as [from' to'].
  rewrite bind_run. unfold get_resolution. simpl in *. rewrite Hstep. reflexivity.
Qed.

Lemma curve_angle_between_sampling fuel function_call from to s :
  (phi from =? phi to)%float = true ->
  (0 <? curve_angle_step_size from to (resolution (canvas s)))%float = true ->
  curve_angle_between fuel function_call from to s
  = let from' := (curve_angle_endpoints from to).1 in
    let opened :=
      with_hidden_frame {[ "_p" := VRecord (pol_property_map (r from') (phi from')) ]} s in
    match curve_angle_all_radii fuel from to (resolution (canvas s)) with
    | None => (OutOfFuel, opened)
    | Some radii =>
        (path ← curve_angle_points function_call from'
                  (pol_property_map (r from') (phi from')) (length (scopes s))
                  radii ∅ {| points := []; is_closed := false |};
         closed ← close_scope;
         if negb closed then print_error_message ScopeCloseError ;; return_false
         else add_path path ;; mret None) opened
    end.
Proof.
  unfold curve_angle_between, curve_angle_all_radii, curve_angle_step_size.
  intros -> Hstep. cbv zeta in *. cbn [negb].
  destruct (curve_angle_endpoints from to) as [from' to']. cbn [fst snd] in *.
  rewrite bind_run. unfold get_resolution. rewrite Hstep. cbn [negb].
  rewrite bind_run, open_new_scope_run.
  rewrite bind_run, define_hidden_variable_run.
  rewrite bind_run.
  destruct (curve_angle_radii _ _ _ _ _ _ _ _ _) as [radii|]; reflexivity.
Qed.

(** [current_point["r"] = r;] *)
Lemma pol_property_map_update_radius radius angle radius' :
  <["r" := VNumber radius']> (pol_property_map radius angle)
  = pol_property_map radius' angle.
Proof.
  unfold pol_property_map.
  rewrite (insert_insert_ne _ "r" "phi") by discriminate.
  rewrite insert_insert_eq. reflexivity.
Qed.

(** The partial evaluation of a single argument. *)
Lemma interpret_one_argument function_call name interpreted s :
  interpret_arguments_from_function_call function_call interpreted (Some [name]) s
  = match argument_named name (arguments function_call) with
    | Some e =>
        match e (scopes s) with
        | inr v => (Returned (<[name := v]> interpreted), s)
        | inl err => (Failed, report err s)
        end
    | None => (Failed, report MissingArgument s)
    end.
Proof.
  unfold interpret_arguments_from_function_call. simpl.
  destruct (argument_named name (arguments function_call)) as [e|]; [|reflexivity].
  destruct (e (scopes s)); reflexivity.
Qed.

(** The loop over the radii keeps the frame of the hidden variable on top of
    the scope stack, whether it ends or fails, and touches nothing else; when
    it ends, it has added one point for each radius. *)
Lemma curve_angle_points_run function_call from s radii :
  forall a interpreted path v0,
  match curve_angle_points function_call from (pol_property_map a (phi from))
          (length (scopes s)) radii interpreted path
          (with_hidden_frame {[ "_p" := v0 ]} s) with
  | (Returned path', s1) =>
      (exists frame', s1 = with_hidden_frame frame' s)
      /\ is_closed path' = is_closed path
      /\ exists new_points,
           points path' = points path ++ new_points
           /\ Forall2 (angle_sample_point function_call (scopes s) from)
                radii new_points
  | (Failed, s1) => exists frame' e, s1 = report e (with_hidden_frame frame' s)
  | (OutOfFuel, _) => False
  end.
Proof.
  induction radii as [|radius rest IH]; intros a interpreted path v0.
  - simpl. split; [eexists; reflexivity|]. split; [reflexivity|].
    exists []. rewrite app_nil_r. split; [reflexivity | constructor].
  - cbn [curve_angle_points]. cbv zeta.
    rewrite pol_property_map_update_radius.
    rewrite bind_run, set_hidden_variable_run, insert_singleton_eq.
    rewrite bind_run, interpret_one_argument.
    assert (Hframes : scopes (with_hidden_frame
                {[ "_p" := VRecord (pol_property_map radius (phi from)) ]} s)
              = scopes s ++ [hidden_frame (mkPol radius (phi from))]) by reflexivity.
    rewrite Hframes.
    pose proof (eq_refl (argument_number function_call "angle"
                           (scopes s ++ [hidden_frame (mkPol radius (phi from))])))
      as Hnumber.
    unfold argument_number at 2 in Hnumber.
    destruct (argument_named "angle" (arguments function_call)) as [e|];
      [|eexists _, _; reflexivity].
    destruct (e (scopes s ++ [hidden_frame (mkPol radius (phi from))])) as [err|v];
      [eexists _, _; reflexivity|].
    rewrite bind_run. unfold number_value_for_parameter.
    rewrite lookup_insert_eq.
    destruct v as [angle| | |]; try (rewrite fail_run; eexists _, _; reflexivity).
    cbn [mret Handler_ret].
    specialize (IH radius (<["angle" := VNumber angle]> interpreted)
                  (push_back (mkPol radius (phi from + angle)%float) path)
                  (VRecord (pol_property_map radius (phi from)))).
    destruct (curve_angle_points _ _ _ _ _ _ _ _) as [[path'| |] s1];
      [|exact IH|exact IH].
    destruct IH as (Hs1 & Hclosed & new_points & Hpoints & Hall).
    split; [exact Hs1|]. split; [exact Hclosed|].
    eexists (_ :: new_points). split.
    + rewrite Hpoints. simpl. rewrite <- app_assoc. reflexivity.
    + constructor; [|exact Hall].
      exists angle. split; [exact Hnumber | reflexivity].
Qed.

(** Once the step size has passed the guard, [curve_angle] ends with a new
    open path made of the points for the radii, or fails or hangs with the
    frame of [_p] still on the stack. *)
Lemma curve_angle_sampling_run fuel function_call from to s :
  (phi from =? phi to)%float = true ->
  (0 <? curve_angle_step_size from to (resolution (canvas s)))%float = true ->
  match curve_angle_between fuel function_call from to s with
  | (Returned result, s') =>
      result = None /\ scopes s' = scopes s /\ messages s' = messages s
      /\ resolution (canvas s') = resolution (canvas s)
      /\ exists radii path,
           curve_angle_all_radii fuel from to (resolution (canvas s)) = Some radii
           /\ paths (canvas s') = paths (canvas s) ++ [path]
           /\ is_closed path = false
           /\ Forall2 (angle_sample_point function_call (scopes s)
                         (curve_angle_endpoints from to).1)
                radii (points path)
  | (Failed, s') | (OutOfFuel, s') =>
      canvas s' = canvas s /\ length (scopes s') = S (length (scopes s))
  end.
Proof.
  intros Hphi Hstep.
  rewrite curve_angle_between_sampling by assumption. cbv zeta.
  destruct (curve_angle_all_radii fuel from to (resolution (canvas s))) as [radii|];
    [|split; [reflexivity|]; simpl; rewrite length_app, Nat.add_1_r; reflexivity].
  rewrite bind_run.
  match goal with |- context [curve_angle_points ?c ?f (pol_property_map ?a _) _ ?rs ?i ?p
                                (with_hidden_frame {[ "_p" := ?v ]} s)] =>
    pose proof (curve_angle_points_run c f s rs a i p v) as Hloop
  end.
  destruct (curve_angle_points _ _ _ _ _ _ _ _) as [[path| |] s1].
  - destruct Hloop as ([frame' ->] & Hclosed & new_points & Hpoints & Hall).
    rewrite bind_run.
    destruct (scopes s) as [|root frames] eqn:Hscopes.
    + unfold close_scope, with_hidden_frame. rewrite Hscopes. simpl.
      split; reflexivity.
    + rewrite close_hidden_scope_run by (rewrite Hscopes; discriminate).
      simpl. rewrite Hscopes. repeat split; try reflexivity.
      exists radii, path. split; [reflexivity|]. split; [reflexivity|].
      split; [exact Hclosed|]. rewrite Hpoints. exact Hall.
  - destruct Hloop as (frame' & e & ->). split; [reflexivity|].
    simpl. rewrite length_app, Nat.add_1_r. reflexivity.
  - destruct Hloop.
Qed.

(** What a run of [curve_angle] between two endpoints leaves behind. *)
Lemma curve_angle_between_run fuel function_call from to s :
  match curve_angle_between fuel function_call from to s with
  | (Returned result, s') =>
      result = None /\ scopes s' = scopes s /\ messages s' = messages s
      /\ resolution (canvas s') = resolution (canvas s)
      /\ exists path, paths (canvas s') = paths (canvas s) ++ [path]
                      /\ is_closed path = false
  | (Failed, s') =>
      canvas s' = canvas s
      /\ (s' = report InconsistentEndpoints s
          \/ s' = report NonPositiveStep s
          \/ length (scopes s') = S (length (scopes s)))
  | (OutOfFuel, s') =>
      canvas s' = canvas s /\ length (scopes s') = S (length (scopes s))
  end.
Proof.
  destruct (phi from =? phi to)%float eqn:Hphi;
    [|rewrite curve_angle_between_inconsistent by exact Hphi; auto].
  destruct (0 <? curve_angle_step_size from to (resolution (canvas s)))%float eqn:Hstep;
    [|rewrite curve_angle_between_non_positive by assumption; auto].
  pose proof (curve_angle_sampling_run fuel function_call from to s Hphi Hstep) as Hrun.
  destruct (curve_angle_between fuel function_call from to s) as [[result| |] s'];
    [|intuition|intuition].
  destruct Hrun as (? & ? & ? & ? & radii & path & _ & ? & ? & _).
  repeat split; try assumption. exists path. split; assumption.
Qed.

(** ** The runs of [curve_distance] *)

Section Distance.
Context {geometry : PolGeometry}.

(** The handler copies points field by field ([Pol rotated(p.r, p.phi)]). *)
Lemma pol_eta (p : Pol) : mkPol (r p) (phi p) = p.
Proof. destruct p; reflexivity. Qed.

Lemma reverse_movement_chain a t b p :
  reverse_movement a t b p = inverse_transform_chain a t b p.
Proof. unfold reverse_movement, inverse_transform_chain. rewrite !pol_eta. reflexivity. Qed.

(** [current_point["r"] = ...; current_point["phi"] = ...;] *)
Lemma pol_property_map_update radius angle radius' angle' :
  <["phi" := VNumber angle']> (<["r" := VNumber radius']> (pol_property_map radius angle))
  = pol_property_map radius' angle'.
Proof.
  unfold pol_property_map.
  apply map_eq. intros k.
  destruct (decide (k = "phi")) as [->|Hphi]; [rewrite !lookup_insert_eq; reflexivity|].
  destruct (decide (k = "r")) as [->|Hr].
  - rewrite (lookup_insert_ne _ "phi") by congruence. rewrite lookup_insert_eq.
    rewrite (lookup_insert_ne _ "phi") by congruence. rewrite lookup_insert_eq.
    reflexivity.
  - repeat first [ rewrite (lookup_insert_ne _ "phi") by congruence
                 | rewrite (lookup_insert_ne _ "r") by congruence ].
    reflexivity.
Qed.

(** The loop over the sample positions keeps the frame of the hidden variable
    on top of the scope stack, whether it ends or fails, and touches nothing
    else; when it ends, it has added one point for each position. *)
Lemma curve_distance_points_run function_call from to s radii :
  forall a b interpreted path v0,
  match curve_distance_points function_call (- phi from)%float (- r from)%float
          (- phi (translated_to from to))%float (pol_property_map a b)
          (length (scopes s)) radii interpreted path
          (with_hidden_frame {[ "_p" := v0 ]} s) with
  | (Returned path', s1) =>
      (exists frame', s1 = with_hidden_frame frame' s)
      /\ is_closed path' = is_closed path
      /\ exists new_points,
           points path' = points path ++ new_points
           /\ Forall2 (distance_sample_point function_call (scopes s) from to)
                radii new_points
  | (Failed, s1) => exists frame' e, s1 = report e (with_hidden_frame frame' s)
  | (OutOfFuel, _) => False
  end.
Proof.
  induction radii as [|radius rest IH]; intros a b interpreted path v0.
  - simpl. split; [eexists; reflexivity|]. split; [reflexivity|].
    exists []. rewrite app_nil_r. split; [reflexivity | constructor].
  - cbn [curve_distance_points]. cbv zeta.
    rewrite !reverse_movement_chain.
    change (inverse_transform_chain (- phi from) (- r from)
              (- phi (translated_to from to)) (mkPol radius 0))%float
      with (back_to_segment from to (mkPol radius 0)).
    set (on_line := back_to_segment from to (mkPol radius 0)).
    rewrite pol_property_map_update.
    rewrite bind_run, set_hidden_variable_run, insert_singleton_eq.
    rewrite bind_run, interpret_one_argument.
    assert (Hframes : scopes (with_hidden_frame
                {[ "_p" := VRecord (pol_property_map (r on_line) (phi on_line)) ]} s)
              = scopes s ++ [hidden_frame on_line]) by reflexivity.
    rewrite Hframes.
    pose proof (eq_refl (argument_number function_call "distance"
                           (scopes s ++ [hidden_frame on_line]))) as Hnumber.
    unfold argument_number at 2 in Hnumber.
    destruct (argument_named "distance" (arguments function_call)) as [e|];
      [|eexists _, _; reflexivity].
    destruct (e (scopes s ++ [hidden_frame on_line])) as [err|v];
      [eexists _, _; reflexivity|].
    rewrite bind_run. unfold number_value_for_parameter.
    rewrite lookup_insert_eq.
    destruct v as [distance| | |]; try (rewrite fail_run; eexists _, _; reflexivity).
    cbn [mret Handler_ret]. rewrite reverse_movement_chain.
    specialize (IH (r on_line) (phi on_line) (<["distance" := VNumber distance]> interpreted)
                  (push_back (inverse_transform_chain (- phi from) (- r from)
                                (- phi (translated_to from to))
                                (curve_distance_resulting_point distance radius))%float path)
                  (VRecord (pol_property_map (r on_line) (phi on_line)))).
    destruct (curve_distance_points _ _ _ _ _ _ _ _ _ _) as [[path'| |] s1];
      [|exact IH|exact IH].
    destruct IH as (Hs1 & Hclosed & new_points & Hpoints & Hall).
    split; [exact Hs1|]. split; [exact Hclosed|].
    eexists (_ :: new_points). split.
    + rewrite Hpoints. simpl. rewrite <- app_assoc. reflexivity.
    + constructor; [|exact Hall].
      exists distance. split; [exact Hnumber | reflexivity].
Qed.

Lemma curve_distance_between_non_positive fuel function_call from to s :
  (0 <? curve_distance_step_size from to (resolution (canvas s)))%float = false ->
  curve_distance_between fuel function_call from to s
  = (Failed, report NonPositiveStep s).
Proof.
  unfold curve_distance_between, curve_distance_step_size. intros Hstep.
  cbv zeta. rewrite bind_run. unfold get_resolution. rewrite Hstep. reflexivity.
Qed.

Lemma curve_distance_between_sampling fuel function_call from to s :
  (0 <? curve_distance_step_size from to (resolution (canvas s)))%float = true ->
  curve_distance_between fuel function_call from to s
  = let opened :=
      with_hidden_frame {[ "_p" := VRecord (pol_property_map (r from) (phi from)) ]} s in
    match curve_distance_radii fuel (r (translated_to from to))
            (curve_distance_step_size from to (resolution (canvas s))) 0 [] with
    | None => (OutOfFuel, opened)
    | Some radii =>
        (path ← curve_distance_points function_call (- phi from)%float (- r from)%float
                  (- phi (translated_to from to))%float
                  (pol_property_map (r from) (phi from)) (length (scopes s))
                  radii ∅ {| points := []; is_closed := false |};
         closed ← close_scope;
         if negb closed then print_error_message ScopeCloseError ;; return_false
         else add_path path ;; mret None) opened
    end.
Proof.
  unfold curve_distance_between, curve_distance_step_size, translated_to.
  intros Hstep. cbv zeta. rewrite !pol_eta.
  rewrite bind_run. unfold get_resolution. rewrite Hstep. cbn [negb].
  rewrite bind_run, open_new_scope_run.
  rewrite bind_run, define_hidden_variable_run.
  rewrite bind_run.
  destruct (curve_distance_radii _ _ _ _ _) as [radii|]; reflexivity.
Qed.

(** The radii that the loop of [curve_distance] collects are the sample
    positions reached from the start by repeated addition of the step size,
    as long as they are strictly below the bound. *)
Lemma curve_distance_radii_positions fuel bound step_size :
  forall start radii result,
  curve_distance_radii fuel bound step_size start radii = Some result ->
  exists n,
    result = radii ++ map (fun k => Nat.iter k (fun x => (x + step_size)%float) start) (seq 0 n)
    /\ (forall k, k < n ->
          (Nat.iter k (fun x => (x + step_size)%float) start <? bound)%float = true)
    /\ (Nat.iter n (fun x => (x + step_size)%float) start <? bound)%float = false.
Proof.
  induction fuel as [|fuel IH]; intros start radii result; [discriminate|].
  cbn [curve_distance_radii].
  destruct (start <? bound)%float eqn:Hlt.
  - intros Hrun. destruct (IH _ _ _ Hrun) as (n & -> & Hbelow & Hstop).
    exists (S n). split; [|split].
    + rewrite <- app_assoc. apply (f_equal (app radii)). cbn [seq map app].
      change (Nat.iter 0 (fun x => (x + step_size)%float) start) with start.
      apply (f_equal (cons start)).
      rewrite <- seq_shift, map_map. apply map_ext. intros k.
      rewrite Nat.iter_succ_r. reflexivity.
    + intros [|k] Hk; [exact Hlt|].
      rewrite Nat.iter_succ_r. apply Hbelow. lia.
    + rewrite Nat.iter_succ_r. exact Hstop.
  - intros [= <-]. exists 0. split; [|split].
    + rewrite app_nil_r. reflexivity.
    + intros k Hk. lia.
    + exact Hlt.
Qed.

(** Once the step size has passed the guard, [curve_distance] ends with a
    new open path made of the points for the sample positions, or fails or
    hangs with the frame of [_p] still on the stack. *)
Lemma curve_distance_sampling_run fuel function_call from to s :
  (0 <? curve_distance_step_size from to (resolution (canvas s)))%float = true ->
  match curve_distance_between fuel function_call from to s with
  | (Returned result, s') =>
      result = None /\ scopes s' = scopes s /\ messages s' = messages s
      /\ resolution (canvas s') = resolution (canvas s)
      /\ exists n path,
           paths (canvas s') = paths (canvas s) ++ [path]
           /\ is_closed path = false
           /\ let step_size := curve_distance_step_size from to (resolution (canvas s)) in
              (forall k, k < n ->
                 (sample_position step_size k <? r (translated_to from to))%float = true)
              /\ (sample_position step_size n <? r (translated_to from to))%float = false
              /\ Forall2 (distance_sample_point function_call (scopes s) from to)
                   (map (sample_position step_size) (seq 0 n)) (points path)
  | (Failed, s') | (OutOfFuel, s') =>
      canvas s' = canvas s /\ length (scopes s') = S (length (scopes s))
  end.
Proof.
  intros Hstep.
  rewrite curve_distance_between_sampling by assumption. cbv zeta.
  destruct (curve_distance_radii fuel _ _ _ _) as [radii|] eqn:Hradii;
    [|split; [reflexivity|]; simpl; rewrite length_app, Nat.add_1_r; reflexivity].
  apply curve_distance_radii_positions in Hradii as (n & -> & Hbelow & Hstop).
  rewrite bind_run. cbn [app].
  match goal with |- context [curve_distance_points ?c _ _ _ (pol_property_map ?a ?b) _ ?rs ?i ?p
                                (with_hidden_frame {[ "_p" := ?v ]} s)] =>
    pose proof (curve_distance_points_run c from to s rs a b i p v) as Hloop
  end.
  destruct (curve_distance_points _ _ _ _ _ _ _ _ _ _) as [[path| |] s1].
  - destruct Hloop as ([frame' ->] & Hclosed & new_points & Hpoints & Hall).
    rewrite bind_run.
    destruct (scopes s) as [|root frames] eqn:Hscopes.
    + unfold close_scope, with_hidden_frame. rewrite Hscopes. simpl.
      split; reflexivity.
    + rewrite close_hidden_scope_run by (rewrite Hscopes; discriminate).
      simpl. rewrite Hscopes. repeat split; try reflexivity.
      exists n, path. split; [reflexivity|]. split; [exact Hclosed|].
      split; [exact Hbelow|]. split; [exact Hstop|].
      rewrite Hpoints. exact Hall.
  - destruct Hloop as (frame' & e & ->). split; [reflexivity|].
    simpl. rewrite length_app, Nat.add_1_r. reflexivity.
  - destruct Hloop.
Qed.

End Distance.

(** ** The curve handlers and [theta] (C1, C2, C4, C5, C6, C7, C10) *)

Section Curves.
Context {geometry : PolGeometry}.

(** A curve handler whose endpoints cannot be obtained fails with the
    message of that failure. *)
Lemma function_curve_angle_run fuel function_call s :
  (exists from to,
     curve_endpoints function_call s = (Returned (from, to), s)
     /\ function_curve_angle fuel function_call s
        = curve_angle_between fuel function_call from to s)
  \/ (exists e, function_curve_angle fuel function_call s = (Failed, report e s)).
Proof.
  unfold function_curve_angle. rewrite bind_run.
  destruct (curve_endpoints_run function_call s) as [(from & to & ->)|[e ->]].
  - left. exists from, to. split; reflexivity.
  - right. exists e. reflexivity.
Qed.

Lemma function_curve_distance_run fuel function_call s :
  (exists from to,
     curve_endpoints function_call s = (Returned (from, to), s)
     /\ function_curve_distance fuel function_call s
        = curve_distance_between fuel function_call from to s)
  \/ (exists e, function_curve_distance fuel function_call s = (Failed, report e s)).
Proof.
  unfold function_curve_distance. rewrite bind_run.
  destruct (curve_endpoints_run function_call s) as [(from & to & ->)|[e ->]].
  - left. exists from, to. split; reflexivity.
  - right. exists e. reflexivity.
Qed.

Lemma function_curve_angle_between fuel function_call s from to :
  curve_endpoints function_call s = (Returned (from, to), s) ->
  function_curve_angle fuel function_call s
  = curve_angle_between fuel function_call from to s.
Proof. intros H. unfold function_curve_angle. rewrite bind_run, H. reflexivity. Qed.

Lemma function_curve_distance_between fuel function_call s from to :
  curve_endpoints function_call s = (Returned (from, to), s) ->
  function_curve_distance fuel function_call s
  = curve_distance_between fuel function_call from to s.
Proof. intros H. unfold function_curve_distance. rewrite bind_run, H. reflexivity. Qed.

(** No failure of a curve handler adds a path to the canvas. *)
Lemma function_curve_angle_failed fuel function_call s s' :
  function_curve_angle fuel function_call s = (Failed, s') -> canvas s' = canvas s.
Proof.
  destruct (function_curve_angle_run fuel function_call s)
    as [(from & to & _ & ->)|[e ->]]; [|intros [= <-]; reflexivity].
  pose proof (curve_angle_between_run fuel function_call from to s) as Hrun.
  intros Heq. rewrite Heq in Hrun. apply Hrun.
Qed.

Lemma function_curve_distance_failed fuel function_call s s' :
  function_curve_distance fuel function_call s = (Failed, s') -> canvas s' = canvas s.
Proof.
  destruct (function_curve_distance_run fuel function_call s)
    as [(from & to & _ & ->)|[e ->]]; [|intros [= <-]; reflexivity].
  intros Heq.
  destruct (0 <? curve_distance_step_size from to (resolution (canvas s)))%float eqn:Hstep.
  - pose proof (curve_distance_sampling_run fuel function_call from to s Hstep) as Hrun.
    rewrite Heq in Hrun. apply Hrun.
  - rewrite curve_distance_between_non_positive in Heq by exact Hstep.
    injection Heq as <-. reflexivity.
Qed.

(** C1.  The curve handlers do not keep the scope stack balanced on every
    failure path.  Once the endpoints have been obtained and the step size
    has passed the guard, the scope of the hidden variable is open; a run
    that then returns [false] (the evaluation of the angle or distance
    argument failed at some sample, or its value is not a number) leaves the
    scope stack with one frame more than before the call: the [return false]
    statements of the loop skip [close_scope]. *)
Theorem curve_failure_leaves_hidden_scope_open :
  (forall fuel function_call s s' from to,
     curve_endpoints function_call s = (Returned (from, to), s) ->
     (phi from =? phi to)%float = true ->
     (0 <? curve_angle_step_size from to (resolution (canvas s)))%float = true ->
     function_curve_angle fuel function_call s = (Failed, s') ->
     length (scopes s') = S (length (scopes s)))
  /\ (forall fuel function_call s s' from to,
     curve_endpoints function_call s = (Returned (from, to), s) ->
     (0 <? curve_distance_step_size from to (resolution (canvas s)))%float = true ->
     function_curve_distance fuel function_call s = (Failed, s') ->
     length (scopes s') = S (length (scopes s))).
Proof.
  split.
  - intros fuel function_call s s' from to Hendpoints Hphi Hstep Hrun.
    rewrite (function_curve_angle_between _ _ _ _ _ Hendpoints) in Hrun.
    pose proof (curve_angle_sampling_run fuel function_call from to s Hphi Hstep) as H.
    rewrite Hrun in H. apply H.
  - intros fuel function_call s s' from to Hendpoints Hstep Hrun.
    rewrite (function_curve_distance_between _ _ _ _ _ Hendpoints) in Hrun.
    pose proof (curve_distance_sampling_run fuel function_call from to s Hstep) as H.
    rewrite Hrun in H. apply H.
Qed.

(** C2.  [curve_angle] does not exchange the roles of its endpoints.  When
    [from.r > to.r] (and the angles match), the assignments [Pol temp = from;
    from = to; to = from;] leave both endpoints equal to the original [to];
    the step size is then [(to.r - to.r) / resolution], which is never
    strictly positive, and the call fails with the non-positive step message
    instead of running from the smaller radius to the larger one. *)
Theorem curve_angle_decreasing_radius_fails fuel function_call s from to :
  curve_endpoints function_call s = (Returned (from, to), s) ->
  (phi from =? phi to)%float = true ->
  (r to <? r from)%float = true ->
  curve_angle_endpoints from to = (to, to)
  /\ function_curve_angle fuel function_call s = (Failed, report NonPositiveStep s).
Proof.
  intros Hendpoints Hphi Hradius.
  split; [exact (curve_angle_endpoints_exchange _ _ Hradius)|].
  rewrite (function_curve_angle_between _ _ _ _ _ Hendpoints).
  apply curve_angle_between_non_positive; [exact Hphi|].
  unfold curve_angle_step_size.
  rewrite (curve_angle_endpoints_exchange _ _ Hradius). cbn [fst snd].
  apply sub_diag_div_not_positive.
Qed.

(** C4.  When the angular coordinates of the two endpoints differ
    ([from.phi != to.phi]), [curve_angle] reports the inconsistent endpoints
    and returns [false]; the canvas is as before.  More generally a curve
    handler that returns [false] has added no path to the canvas. *)
Theorem curve_angle_inconsistent_endpoints fuel function_call s from to :
  curve_endpoints function_call s = (Returned (from, to), s) ->
  (phi from =? phi to)%float = false ->
  function_curve_angle fuel function_call s = (Failed, report InconsistentEndpoints s)
  /\ canvas (report InconsistentEndpoints s) = canvas s
  /\ (forall fuel' function_call' s0 s1,
        function_curve_angle fuel' function_call' s0 = (Failed, s1) ->
        canvas s1 = canvas s0)
  /\ (forall fuel' function_call' s0 s1,
        function_curve_distance fuel' function_call' s0 = (Failed, s1) ->
        canvas s1 = canvas s0).
Proof.
  intros Hendpoints Hphi. split; [|split; [reflexivity|split]].
  - rewrite (function_curve_angle_between _ _ _ _ _ Hendpoints).
    apply curve_angle_between_inconsistent. exact Hphi.
  - intros fuel' function_call' s0 s1. apply function_curve_angle_failed.
  - intros fuel' function_call' s0 s1. apply function_curve_distance_failed.
Qed.

Lemma report_scopes_length e s s' :
  s' = report e s -> length (scopes s') = S (length (scopes s)) -> False.
Proof. intros ->. simpl. lia. Qed.

(** C5.  The guard on the step size of [curve_angle] does not test the step
    size of the swapped endpoints.  After the endpoints have been obtained
    (and, for [curve_angle], found to have the same angle), each curve
    handler fails with the non-positive step message, leaving everything else
    as it was, exactly when the step size that the code computes is not
    strictly positive; the failure needs no fuel, that is, no condition of a
    loop is evaluated before it, and the scope of the hidden variable has not
    been opened.  For [curve_distance] that step size is
    [from.distance_to(to) / resolution].  For [curve_angle] it is
    [(to.r - from.r) / resolution] of the endpoints after the exchange as the
    code performs it: without an exchange it is the step size of the swapped
    endpoints, but when [from.r > to.r] the call always fails, whatever the
    step size of the swapped endpoints is; for [from = (2,0)], [to = (1,0)]
    and resolution 10 that step size is strictly positive and the call fails
    with the non-positive step message all the same. *)
Theorem non_positive_step_is_rejected_before_sampling :
  (forall fuel function_call s from to,
     curve_endpoints function_call s = (Returned (from, to), s) ->
     (phi from =? phi to)%float = true ->
     ((0 <? curve_angle_step_size from to (resolution (canvas s)))%float = false
      <-> function_curve_angle fuel function_call s = (Failed, report NonPositiveStep s))
     /\ ((r to <? r from)%float = false ->
         curve_angle_step_size from to (resolution (canvas s))
         = swapped_step_size from to (resolution (canvas s)))
     /\ ((r to <? r from)%float = true ->
         function_curve_angle fuel function_call s
         = (Failed, report NonPositiveStep s)))
  /\ (forall fuel angle,
        (0 <? swapped_step_size (mkPol 2 0) (mkPol 1 0) 10)%float = true
        /\ function_curve_angle fuel (curve_angle_call (pol 2 0) (pol 1 0) angle)
             (initial 10)
           = (Failed, report NonPositiveStep (initial 10)))
  /\ (forall fuel function_call s from to,
     curve_endpoints function_call s = (Returned (from, to), s) ->
     ((0 <? curve_distance_step_size from to (resolution (canvas s)))%float = false
      <-> function_curve_distance fuel function_call s = (Failed, report NonPositiveStep s))).
Proof.
  split; [|split].
  - intros fuel function_call s from to Hendpoints Hphi.
    rewrite (function_curve_angle_between _ _ _ _ _ Hendpoints).
    split; [split|split].
    + intros Hstep. apply curve_angle_between_non_positive; assumption.
    + intros Hrun.
      destruct (0 <? curve_angle_step_size from to (resolution (canvas s)))%float eqn:Hstep;
        [exfalso|reflexivity].
      pose proof (curve_angle_sampling_run fuel function_call from to s Hphi Hstep) as H.
      rewrite Hrun in H. destruct H as [_ H].
      exact (report_scopes_length _ _ _ eq_refl H).
    + intros Hradius.
      unfold curve_angle_step_size, swapped_step_size, curve_angle_endpoints,
        swapped_endpoints.
      rewrite Hradius. reflexivity.
    + intros Hradius.
      apply curve_angle_between_non_positive; [exact Hphi|].
      unfold curve_angle_step_size.
      rewrite (curve_angle_endpoints_exchange _ _ Hradius). cbn [fst snd].
      apply sub_diag_div_not_positive.
  - intros fuel angle. split; [reflexivity|].
    unfold function_curve_angle. rewrite bind_run.
    replace (curve_endpoints (curve_angle_call (pol 2 0) (pol 1 0) angle) (initial 10))
      with (Returned (mkPol 2 0, mkPol 1 0), initial 10)
      by (vm_compute; reflexivity).
    cbn [fst snd].
    apply curve_angle_between_non_positive; reflexivity.
  - intros fuel function_call s from to Hendpoints.
    rewrite (function_curve_distance_between _ _ _ _ _ Hendpoints). split.
    + intros Hstep. apply curve_distance_between_non_positive; assumption.
    + intros Hrun.
      destruct (0 <? curve_distance_step_size from to (resolution (canvas s)))%float eqn:Hstep;
        [exfalso|reflexivity].
      pose proof (curve_distance_sampling_run fuel function_call from to s Hstep) as H.
      rewrite Hrun in H. destruct H as [_ H].
      exact (report_scopes_length _ _ _ eq_refl H).
Qed.

(** X2.  In a successful run of [curve_angle] the endpoints have the same
    angle, and the path added to the canvas has one point for each radius
    that the loops collected, in order: the point at that radius whose angle
    is [from.phi] plus the value of the argument [angle] under the scope
    stack extended by the frame in which [_p] is bound to
    [(radius, from.phi)]. *)
Theorem curve_angle_point_construction fuel function_call s s' result :
  function_curve_angle fuel function_call s = (Returned result, s') ->
  exists from to radii path,
    curve_endpoints function_call s = (Returned (from, to), s)
    /\ (phi from =? phi to)%float = true
    /\ curve_angle_all_radii fuel from to (resolution (canvas s)) = Some radii
    /\ paths (canvas s') = paths (canvas s) ++ [path]
    /\ Forall2
         (fun radius point =>
            exists angle,
              argument_number function_call "angle"
                (scopes s ++ [hidden_frame (mkPol radius
                                              (phi (curve_angle_endpoints from to).1))])
              = Some angle
              /\ point = mkPol radius (phi (curve_angle_endpoints from to).1 + angle)%float)
         radii (points path).
Proof.
  destruct (function_curve_angle_run fuel function_call s)
    as [(from & to & Hendpoints & ->)|[e ->]]; [|discriminate].
  intros Hrun.
  destruct (phi from =? phi to)%float eqn:Hphi;
    [|rewrite curve_angle_between_inconsistent in Hrun by exact Hphi; discriminate].
  destruct (0 <? curve_angle_step_size from to (resolution (canvas s)))%float eqn:Hstep;
    [|rewrite curve_angle_between_non_positive in Hrun by assumption; discriminate].
  pose proof (curve_angle_sampling_run fuel function_call from to s Hphi Hstep) as H.
  rewrite Hrun in H.
  destruct H as (_ & _ & _ & _ & radii & path & Hradii & Hpaths & _ & Hall).
  exists from, to, radii, path. repeat split; assumption || reflexivity.
Qed.

(** A successful run of [curve_distance]: the endpoints, the number of
    samples and the path added to the canvas. *)
Lemma function_curve_distance_returned fuel function_call s s' result :
  function_curve_distance fuel function_call s = (Returned result, s') ->
  exists from to n path,
    curve_endpoints function_call s = (Returned (from, to), s)
    /\ paths (canvas s') = paths (canvas s) ++ [path]
    /\ is_closed path = false
    /\ let step_size := curve_distance_step_size from to (resolution (canvas s)) in
       (forall k, k < n ->
          (sample_position step_size k <? r (translated_to from to))%float = true)
       /\ (sample_position step_size n <? r (translated_to from to))%float = false
       /\ Forall2 (distance_sample_point function_call (scopes s) from to)
            (map (sample_position step_size) (seq 0 n)) (points path).
Proof.
  destruct (function_curve_distance_run fuel function_call s)
    as [(from & to & Hendpoints & ->)|[e ->]]; [|discriminate].
  intros Hrun.
  destruct (0 <? curve_distance_step_size from to (resolution (canvas s)))%float eqn:Hstep;
    [|rewrite curve_distance_between_non_positive in Hrun by exact Hstep; discriminate].
  pose proof (curve_distance_sampling_run fuel function_call from to s Hstep) as H.
  rewrite Hrun in H. destruct H as (_ & _ & _ & _ & n & path & H).
  exists from, to, n, path. split; [exact Hendpoints | exact H].
Qed.

(** C6.  In a successful run of [curve_distance] the points of the path
    added to the canvas come from the sample positions of the reference ray:
    the positions 0, 0 + step_size, ... that are strictly below
    [translated_to.r], up to the first one that is not, and the path has
    exactly one point for each of them, in order.  For the position [radius]
    the distance is the value of the argument [distance] under the scope
    stack extended by the frame in which [_p] is bound to the inverse
    transform chain applied to [(radius, 0)].  The path point is the inverse
    transform chain applied to the offset point [(|distance|, angle)]
    translated horizontally by [radius], where [angle] is [M_PI / 2] when
    [distance >= 0] and three halves of [M_PI] when [distance < 0].  The
    chain rotates by the negative of the second rotation angle, translates
    horizontally by the negative of the translation distance and rotates by
    the negative of the first rotation angle. *)
Theorem curve_distance_point_construction fuel function_call s s' result :
  function_curve_distance fuel function_call s = (Returned result, s') ->
  exists from to n path,
    curve_endpoints function_call s = (Returned (from, to), s)
    /\ paths (canvas s') = paths (canvas s) ++ [path]
    /\ let rotation_angle := (- phi from)%float in
       let translation_distance := (- r from)%float in
       let second_rotation_angle := (- phi (translated_to from to))%float in
       let chain :=
         inverse_transform_chain rotation_angle translation_distance
           second_rotation_angle in
       let step_size := curve_distance_step_size from to (resolution (canvas s)) in
       (forall k, k < n ->
          (sample_position step_size k <? r (translated_to from to))%float = true)
       /\ (sample_position step_size n <? r (translated_to from to))%float = false
       /\ length (points path) = n
       /\ Forall2
            (fun radius point =>
               exists distance angle,
                 argument_number function_call "distance"
                   (scopes s ++ [hidden_frame (chain (mkPol radius 0))]) = Some distance
                 /\ ((0 <=? distance)%float = true -> angle = (M_PI / 2)%float)
                 /\ ((distance <? 0)%float = true -> angle = (3 * M_PI / 2)%float)
                 /\ point = chain (translate_horizontally_by
                                     (mkPol (abs distance) angle) radius))
            (map (sample_position step_size) (seq 0 n)) (points path).
Proof.
  intros Hrun.
  destruct (function_curve_distance_returned _ _ _ _ _ Hrun)
    as (from & to & n & path & Hendpoints & Hpaths & _ & Hbelow & Hstop & Hall).
  exists from, to, n, path.
  split; [exact Hendpoints|]. split; [exact Hpaths|]. cbv zeta.
  split; [exact Hbelow|]. split; [exact Hstop|]. split.
  { apply Forall2_length in Hall. rewrite length_map, length_seq in Hall.
    symmetry. exact Hall. }
  eapply Forall2_impl; [exact Hall|].
  intros radius point (distance & Hdistance & ->).
  exists distance, (offset_angle distance).
  split; [exact Hdistance|]. unfold offset_angle. split; [|split].
  - intros Hle. rewrite (leb_true_ltb_false _ _ Hle). reflexivity.
  - intros ->. reflexivity.
  - reflexivity.
Qed.

(** C10.  In a successful run of [curve_distance] the sample positions are
    0, 0 + step_size, (0 + step_size) + step_size, ...: all those that are
    strictly less than [translated_to.r], the first position that is not
    strictly less ending the loop.  The path added to the canvas has exactly
    one point for each of these positions, in order, so its last point comes
    from a position strictly before [translated_to.r]. *)
Theorem curve_distance_samples_before_far_endpoint fuel function_call s s' result :
  function_curve_distance fuel function_call s = (Returned result, s') ->
  exists from to n path,
    curve_endpoints function_call s = (Returned (from, to), s)
    /\ paths (canvas s') = paths (canvas s) ++ [path]
    /\ let step_size := curve_distance_step_size from to (resolution (canvas s)) in
       let positions := map (sample_position step_size) (seq 0 n) in
       Forall (fun radius => (radius <? r (translated_to from to))%float = true) positions
       /\ (sample_position step_size n <? r (translated_to from to))%float = false
       /\ Forall2 (distance_sample_point function_call (scopes s) from to)
            positions (points path).
Proof.
  intros Hrun.
  destruct (function_curve_distance_returned _ _ _ _ _ Hrun)
    as (from & to & n & path & Hendpoints & Hpaths & _ & Hbelow & Hstop & Hall).
  exists from, to, n, path.
  split; [exact Hendpoints|]. split; [exact Hpaths|]. cbv zeta.
  split; [|split; assumption].
  apply Forall_forall. intros radius Hin.
  apply list_elem_of_In, in_map_iff in Hin as (k & <- & Hk).
  apply in_seq in Hk. apply Hbelow. lia.
Qed.

(** C7.  With the arguments [r1], [r2] and [R] bound to numbers, [theta]
    reports an invalid triangle and fails when [r1 > R] or [r2 > R] or
    [r1 + r2 < R]; otherwise it reports a numerical failure exactly when
    [Pol::theta(r1, r2, R)] is less than zero, and otherwise returns that
    number. *)
Theorem function_theta_outcomes function_call s interpreted r_1 r_2 R :
  interpret_arguments_from_function_call function_call ∅ None s
  = (Returned interpreted, s) ->
  interpreted !! "r1" = Some (VNumber r_1) ->
  interpreted !! "r2" = Some (VNumber r_2) ->
  interpreted !! "R" = Some (VNumber R) ->
  ((R <? r_1)%float || (R <? r_2)%float || (r_1 + r_2 <? R)%float = true ->
     function_theta function_call s = (Failed, report InvalidTriangle s))
  /\ ((R <? r_1)%float || (R <? r_2)%float || (r_1 + r_2 <? R)%float = false ->
      ((theta r_1 r_2 R <? 0)%float = true
       <-> function_theta function_call s = (Failed, report NumericalFailure s))
      /\ ((theta r_1 r_2 R <? 0)%float = false ->
          function_theta function_call s
          = (Returned (Some (VNumber (theta r_1 r_2 R))), s))).
Proof.
  intros Hargs H1 H2 HR.
  assert (Hrun : function_theta function_call s
                 = if (R <? r_1)%float || (R <? r_2)%float
                   then (Failed, report InvalidTriangle s)
                   else if (r_1 + r_2 <? R)%float
                   then (Failed, report InvalidTriangle s)
                   else if (theta r_1 r_2 R <? 0)%float
                   then (Failed, report NumericalFailure s)
                   else (Returned (Some (VNumber (theta r_1 r_2 R))), s)).
  { unfold function_theta. rewrite bind_run, Hargs.
    unfold number_value_for_parameter. rewrite H1, H2, HR.
    repeat (rewrite ret_bind_run; cbv beta). cbv zeta.
    repeat case_match; reflexivity. }
  rewrite Hrun. split.
  - intros Hbad. apply orb_true_iff in Hbad as [->| ->]; [reflexivity|].
    destruct (_ || _); reflexivity.
  - intros Hgood. apply orb_false_iff in Hgood as [-> ->].
    destruct (theta r_1 r_2 R <? 0)%float; split.
    + split; reflexivity.
    + discriminate.
    + split; discriminate.
    + reflexivity.
Qed.

End Curves.

(** ** Resolutions that break the sampling of [curve_angle] (C3) *)

Lemma curve_angle_radii_absorbed_step fuel :
  curve_angle_all_radii fuel (mkPol 1 0) (mkPol 2 0) 1e18 = None.
Proof.
  unfold curve_angle_all_radii.
  generalize (@nil float). generalize fuel at 1.
  induction fuel as [|fuel IH]; intros inner radii; [reflexivity|].
  cbn. apply IH.
Qed.

(** C3.  [curve_angle(from: (1,0), to: (2,0), angle: ...)] does not succeed
    for every resolution R > 0.  With R = 1e18 the step size (2 - 1) / 1e18
    is strictly positive, so the guard lets it through, but adding it to the
    radius 1 gives 1 again in binary64: the loop [while (radius <= to.r)]
    never exits.  Whatever the fuel and the angle argument, the model is
    still inside the loop and nothing has been added to the canvas.  With
    R = 5.75 the call succeeds, but the last point of the path has a radius
    above 2.015: the sixth radius, 1 increased five times by the step size,
    is below [from.r + additional_detail_threshold] by rounding and gets a
    sub-sample of its own beyond [to.r]. *)
Theorem curve_angle_resolutions_that_break_sampling :
  (0 <? curve_angle_step_size (mkPol 1 0) (mkPol 2 0) 1e18)%float = true
  /\ (1 + curve_angle_step_size (mkPol 1 0) (mkPol 2 0) 1e18 = 1)%float
  /\ (forall fuel angle, exists s',
        function_curve_angle fuel
          (curve_angle_call (pol 1 0) (pol 2 0) angle) (initial 1e18)
        = (OutOfFuel, s')
        /\ paths (canvas s') = [])
  /\ (exists s' path point,
        function_curve_angle 100
          (curve_angle_call (pol 1 0) (pol 2 0) (number 0)) (initial 5.75)
        = (Returned None, s')
        /\ paths (canvas s') = [path]
        /\ last (points path) = Some point
        /\ (2.015625 <? r point)%float = true).
Proof.
  split; [reflexivity|]. split; [reflexivity|]. split.
  - intros fuel angle.
    unfold function_curve_angle. rewrite bind_run.
    replace (curve_endpoints (curve_angle_call (pol 1 0) (pol 2 0) angle)
               (initial 1e18))
      with (Returned (mkPol 1 0, mkPol 2 0), initial 1e18)
      by (vm_compute; reflexivity).
    cbn [fst snd].
    rewrite curve_angle_between_sampling by reflexivity.
    cbn [initial canvas resolution]. cbv zeta.
    rewrite curve_angle_radii_absorbed_step.
    eexists. split; reflexivity.
  - eexists _, _, _. split; [vm_compute; reflexivity|].
    split; [reflexivity|]. split; reflexivity.
Qed.

(** ** [random] and [set_resolution] (C8, C9) *)

Lemma function_random_run distribution function_call s interpreted from to :
  interpret_arguments_from_function_call function_call ∅ None s
  = (Returned interpreted, s) ->
  interpreted !! "from" = Some (VNumber from) ->
  interpreted !! "to" = Some (VNumber to) ->
  function_random distribution function_call s
  = if (to <? from)%float then (Failed, report InvalidRange s)
    else (Returned (Some (VNumber (distribution from to))), s).
Proof.
  intros Hargs Hfrom Hto.
  unfold function_random. rewrite bind_run, Hargs.
  unfold number_value_for_parameter. rewrite Hfrom, Hto.
  repeat (rewrite ret_bind_run; cbv beta).
  destruct (to <? from)%float; reflexivity.
Qed.

(** The numbers of [std::generate_canonical] are zero or finite and
    positive. *)
Lemma nonnegative_below_finite (x : spec_float) sign m e :
  SFleb (S754_zero false) x = true ->
  SFltb x (S754_finite sign m e) = true ->
  (exists sx, x = S754_zero sx) \/ (exists mx ex, x = S754_finite false mx ex).
Proof.
  unfold SFleb, SFltb.
  destruct x as [sx|sx| |sx mx ex]; simpl; intros Hlower Hupper.
  - left. exists sx. reflexivity.
  - destruct sx; [discriminate Hlower | discriminate Hupper].
  - discriminate Hlower.
  - destruct sx; [discriminate Hlower|]. right. exists mx, ex. reflexivity.
Qed.

Lemma canonical_cases (u : float) :
  canonical u ->
  (exists su, Prim2SF u = S754_zero su)
  \/ (exists mu eu, Prim2SF u = S754_finite false mu eu).
Proof.
  intros [Hlower Hupper]. rewrite leb_spec in Hlower. rewrite ltb_spec in Hupper.
  change (Prim2SF 0) with (S754_zero false) in Hlower.
  change (Prim2SF 1) with (S754_finite false 4503599627370496 (-52)) in Hupper.
  exact (nonnegative_below_finite _ _ _ _ Hlower Hupper).
Qed.

Lemma SFsub_diag_finite sign m e :
  SF64sub (S754_finite sign m e) (S754_finite sign m e) = S754_zero false.
Proof. cbn [SF64sub SFsub]. rewrite Z.sub_diag. reflexivity. Qed.

(** Between equal finite bounds the library draws the bound itself. *)
Lemma draw_between_equal_bounds (u a : float) sign m e :
  canonical u ->
  Prim2SF a = S754_finite sign m e ->
  uniform_real_distribution u a a = a.
Proof.
  intros Hu Ha. apply Prim2SF_inj. unfold uniform_real_distribution.
  rewrite add_spec, mul_spec, sub_spec, Ha, SFsub_diag_finite.
  destruct (canonical_cases u Hu) as [[su ->]|(mu & eu & ->)]; reflexivity.
Qed.

(** When the difference of the bounds overflows, what the library draws is
    not at most the upper bound. *)
Lemma draw_over_infinite_width (u a b : float) :
  canonical u ->
  (b - a)%float = infinity ->
  (b <? infinity)%float = true ->
  (uniform_real_distribution u a b <=? b)%float = false.
Proof.
  intros Hu Hwidth Hfinite. unfold uniform_real_distribution.
  rewrite leb_spec, add_spec, mul_spec, Hwidth.
  rewrite ltb_spec in Hfinite.
  change (Prim2SF infinity) with (S754_infinity false) in *.
  unfold SFleb, SFltb in *.
  destruct (canonical_cases u Hu) as [[su ->]|(mu & eu & ->)].
  - reflexivity.
  - cbn [SF64mul SFmul xorb].
    destruct (Prim2SF a) as [sa|[]| |sa ma ea]; cbn [SF64add SFadd];
      try reflexivity;
      destruct (Prim2SF b) as [sb|[]| |sb mb eb]; try reflexivity;
      discriminate Hfinite.
Qed.

(** C8.  [random] does not keep to the interval for all bounds with
    [from <= to].  With the arguments [from] and [to] bound to numbers,
    [random] reports an invalid range and fails exactly when [to < from];
    otherwise it returns what [std::uniform_real_distribution(from, to)]
    draws, [u * (to - from) + from] for the number [u] in [0, 1) of the
    generator, and changes nothing.  For [from = to = 2] that is exactly 2,
    whatever [u] is.  But nothing checks the width of the interval: when
    [from <= to] and [to - from] overflows to infinity, with a finite [to],
    the number returned is not at most [to] (it is infinity, or NaN when
    [u] is 0), against the comment of the code that the number is drawn from
    this interval. *)
Theorem function_random_outcomes u function_call s interpreted from to :
  interpret_arguments_from_function_call function_call ∅ None s
  = (Returned interpreted, s) ->
  interpreted !! "from" = Some (VNumber from) ->
  interpreted !! "to" = Some (VNumber to) ->
  canonical u ->
  ((to <? from)%float = true
   <-> function_random (uniform_real_distribution u) function_call s
       = (Failed, report InvalidRange s))
  /\ ((to <? from)%float = false ->
      function_random (uniform_real_distribution u) function_call s
      = (Returned (Some (VNumber (u * (to - from) + from))), s))
  /\ (from = 2%float -> to = 2%float ->
      function_random (uniform_real_distribution u) function_call s
      = (Returned (Some (VNumber 2)), s))
  /\ ((from <=? to)%float = true ->
      (to - from)%float = infinity ->
      (to <? infinity)%float = true ->
      exists x,
        function_random (uniform_real_distribution u) function_call s
        = (Returned (Some (VNumber x)), s)
        /\ (x <=? to)%float = false).
Proof.
  intros Hargs Hfrom Hto Hu.
  rewrite (function_random_run _ _ _ _ _ _ Hargs Hfrom Hto).
  split; [|split; [|split]].
  - destruct (to <? from)%float; split; congruence.
  - intros ->. reflexivity.
  - intros -> ->.
    rewrite (draw_between_equal_bounds u 2 false 4503599627370496 (-51) Hu eq_refl).
    reflexivity.
  - intros Hle Hwidth Hfinite. rewrite (leb_true_ltb_false _ _ Hle).
    eexists. split; [reflexivity|].
    apply draw_over_infinite_width; assumption.
Qed.

Lemma function_set_resolution_run function_call s interpreted x :
  interpret_arguments_from_function_call function_call ∅ None s
  = (Returned interpreted, s) ->
  interpreted !! "x" = Some (VNumber x) ->
  function_set_resolution function_call s
  = if (0 <? x)%float
    then (Returned (Some (VNumber x)),
          {| scopes := scopes s; messages := messages s;
             canvas := {| paths := paths (canvas s); resolution := x |} |})
    else (Failed, report InvalidResolution s).
Proof.
  intros Hargs Hx.
  unfold function_set_resolution. rewrite bind_run, Hargs.
  unfold number_value_for_parameter. rewrite Hx.
  rewrite ret_bind_run. cbv beta.
  destruct (0 <? x)%float; reflexivity.
Qed.

(** C9, as the code has it.  With the argument [x] bound to a number,
    [set_resolution] reports an invalid resolution and fails exactly when [x]
    is not strictly positive, that is, when [x <= 0] or [x] is not a number
    (NaN); the resolution of the canvas is then the one before the call.
    When [x > 0] it returns [x] and the resolution of the canvas is [x]. *)
Theorem function_set_resolution_outcomes function_call s interpreted x :
  interpret_arguments_from_function_call function_call ∅ None s
  = (Returned interpreted, s) ->
  interpreted !! "x" = Some (VNumber x) ->
  (((x <=? 0)%float = true \/ is_nan x = true)
   <-> function_set_resolution function_call s = (Failed, report InvalidResolution s))
  /\ resolution (canvas (report InvalidResolution s)) = resolution (canvas s)
  /\ ((0 <? x)%float = true ->
      exists s',
        function_set_resolution function_call s = (Returned (Some (VNumber x)), s')
        /\ resolution (canvas s') = x
        /\ paths (canvas s') = paths (canvas s)
        /\ scopes s' = scopes s /\ messages s' = messages s).
Proof.
  intros Hargs Hx.
  rewrite (function_set_resolution_run _ _ _ _ Hargs Hx), <- not_positive_iff.
  split; [|split; [reflexivity|]].
  - destruct (0 <? x)%float; split; congruence.
  - intros ->. eexists. repeat split; reflexivity.
Qed.

(** C9, as stated, fails for a NaN: [set_resolution(x: NaN)] reports an
    invalid resolution and fails although NaN <= 0 does not hold. *)
Lemma set_resolution_rejects_nan :
  function_set_resolution (set_resolution_call (number nan)) (initial 10)
  = (Failed, report InvalidResolution (initial 10))
  /\ (nan <=? 0)%float = false.
Proof. split; vm_compute; reflexivity. Qed.

(** ** The statements at sample inputs *)

(** [curve_angle(from: (1,0), to: (2,0), angle: q)] with [q] undefined and
    [curve_distance(from: (1,0), to: (2,0), distance: "far")], resolution 10:
    the last argument fails at the first sample, and the scope stack has two
    frames after the call where it had one. *)
Lemma curve_failure_leaves_hidden_scope_open_at_sample :
  (exists s',
     function_curve_angle 100
       (curve_angle_call (pol 1 0) (pol 2 0) (variable "q")) (initial 10)
     = (Failed, s')
     /\ messages s' = [UndefinedVariable]
     /\ length (scopes (initial 10)) = 1
     /\ length (scopes s') = 2)
  /\ (exists s',
     function_curve_distance (geometry := ray_geometry) 100
       (curve_distance_call (pol 1 0) (pol 2 0) (text "far")) (initial 10)
     = (Failed, s')
     /\ messages s' = [TypeMismatch]
     /\ length (scopes (initial 10)) = 1
     /\ length (scopes s') = 2).
Proof.
  destruct (curve_failure_leaves_hidden_scope_open (geometry := ray_geometry))
    as [Hangle Hdistance].
  split; eexists; (split; [vm_compute; reflexivity|]);
    (split; [reflexivity|]); (split; [reflexivity|]).
  - refine (Hangle 100 (curve_angle_call (pol 1 0) (pol 2 0) (variable "q"))
              (initial 10) _ (mkPol 1 0) (mkPol 2 0) _ _ _ _);
      vm_compute; reflexivity.
  - refine (Hdistance 100 (curve_distance_call (pol 1 0) (pol 2 0) (text "far"))
              (initial 10) _ (mkPol 1 0) (mkPol 2 0) _ _ _);
      vm_compute; reflexivity.
Defined.

(** With resolution 10, [curve_angle(from: (1,0), to: (2,0), angle: 0)]
    returns [true] and adds a path of 15 points to the canvas, whereas
    [curve_angle(from: (2,0), to: (1,0), angle: 0)] fails with the
    non-positive step message and an empty canvas. *)
Lemma curve_angle_decreasing_radius_fails_at_sample :
  (exists s' path,
     function_curve_angle 100
       (curve_angle_call (pol 1 0) (pol 2 0) (number 0)) (initial 10)
     = (Returned None, s')
     /\ paths (canvas s') = [path]
     /\ length (points path) = 15)
  /\ curve_angle_endpoints (mkPol 2 0) (mkPol 1 0) = (mkPol 1 0, mkPol 1 0)
  /\ function_curve_angle 100
       (curve_angle_call (pol 2 0) (pol 1 0) (number 0)) (initial 10)
     = (Failed, report NonPositiveStep (initial 10))
  /\ paths (canvas (report NonPositiveStep (initial 10))) = [].
Proof.
  split; [eexists _, _; split; [vm_compute; reflexivity|split; reflexivity]|].
  split; [|split; [|reflexivity]].
  - refine (proj1 (curve_angle_decreasing_radius_fails 100
                     (curve_angle_call (pol 2 0) (pol 1 0) (number 0))
                     (initial 10) (mkPol 2 0) (mkPol 1 0) _ _ _));
      vm_compute; reflexivity.
  - refine (proj2 (curve_angle_decreasing_radius_fails 100
                     (curve_angle_call (pol 2 0) (pol 1 0) (number 0))
                     (initial 10) (mkPol 2 0) (mkPol 1 0) _ _ _));
      vm_compute; reflexivity.
Defined.

(** [curve_angle(from: (1,0), to: (2,1), angle: 0)]: the angles 0 and 1 of
    the endpoints differ. *)
Lemma curve_angle_inconsistent_endpoints_at_sample :
  curve_endpoints (curve_angle_call (pol 1 0) (pol 2 1) (number 0)) (initial 10)
  = (Returned (mkPol 1 0, mkPol 2 1), initial 10)
  /\ (0 =? 1)%float = false
  /\ function_curve_angle 100 (curve_angle_call (pol 1 0) (pol 2 1) (number 0)) (initial 10)
     = (Failed, report InconsistentEndpoints (initial 10)).
Proof.
  split; [vm_compute; reflexivity|]. split; [reflexivity|].
  refine (proj1 (curve_angle_inconsistent_endpoints (geometry := ray_geometry)
                   100 _ (initial 10) (mkPol 1 0) (mkPol 2 1) _ _));
    vm_compute; reflexivity.
Defined.

(** [curve_angle] and [curve_distance] from (1,0) to (1,0): the step size is
    0 and both fail before they sample anything, with no fuel at all. *)
Lemma non_positive_step_at_sample :
  (0 <? curve_angle_step_size (mkPol 1 0) (mkPol 1 0) 10)%float = false
  /\ function_curve_angle 0 (curve_angle_call (pol 1 0) (pol 1 0) (number 0)) (initial 10)
     = (Failed, report NonPositiveStep (initial 10))
  /\ (0 <? swapped_step_size (mkPol 2 0) (mkPol 1 0) 10)%float = true
  /\ function_curve_angle 0 (curve_angle_call (pol 2 0) (pol 1 0) (number 0)) (initial 10)
     = (Failed, report NonPositiveStep (initial 10))
  /\ (0 <? curve_distance_step_size (geometry := ray_geometry) (mkPol 1 0) (mkPol 1 0) 10)%float
     = false
  /\ function_curve_distance (geometry := ray_geometry) 0
       (curve_distance_call (pol 1 0) (pol 1 0) (number 1)) (initial 10)
     = (Failed, report NonPositiveStep (initial 10)).
Proof.
  destruct (non_positive_step_is_rejected_before_sampling (geometry := ray_geometry))
    as (Hangle & Hswapped & Hdistance).
  split; [reflexivity|]. split; [|split; [|split; [|split; [reflexivity|]]]].
  - refine (proj1 (proj1 (Hangle 0 (curve_angle_call (pol 1 0) (pol 1 0) (number 0))
                            (initial 10) (mkPol 1 0) (mkPol 1 0) _ _)) _);
      vm_compute; reflexivity.
  - exact (proj1 (Hswapped 0 (number 0))).
  - exact (proj2 (Hswapped 0 (number 0))).
  - apply (Hdistance 0 _ (initial 10) (mkPol 1 0) (mkPol 1 0)); vm_compute; reflexivity.
Defined.

(** The sample run of [curve_distance] has four sample positions, 0, 0.25,
    0.5 and 0.75, and its path four points. *)
Lemma curve_distance_point_construction_at_sample :
  sample_curve_distance = (Returned None, sample_curve_distance.2)
  /\ exists (from to : Pol) (path : Path),
       curve_endpoints (curve_distance_call (pol 1 0) (pol 2 0) (property "_p" "r"))
         (initial 4) = (Returned (from, to), initial 4)
       /\ paths (canvas sample_curve_distance.2) = paths (canvas (initial 4)) ++ [path]
       /\ length (points path) = 4.
Proof.
  split; [vm_compute; reflexivity|].
  destruct (curve_distance_point_construction (geometry := ray_geometry) 100
              (curve_distance_call (pol 1 0) (pol 2 0) (property "_p" "r"))
              (initial 4) sample_curve_distance.2 None)
    as (from & to & n & path & Hendpoints & Hpaths & _).
  - vm_compute. reflexivity.
  - exists from, to, path. split; [exact Hendpoints|]. split; [exact Hpaths|].
    assert (map (fun p => length (points p)) (paths (canvas sample_curve_distance.2))
            = [4]) as Hlength by (vm_compute; reflexivity).
    rewrite Hpaths in Hlength. cbn in Hlength. congruence.
Defined.

Lemma curve_distance_samples_before_far_endpoint_at_sample :
  sample_curve_distance = (Returned None, sample_curve_distance.2)
  /\ exists from to n path,
       curve_endpoints (curve_distance_call (pol 1 0) (pol 2 0) (property "_p" "r"))
         (initial 4) = (Returned (from, to), initial 4)
       /\ paths (canvas sample_curve_distance.2) = paths (canvas (initial 4)) ++ [path]
       /\ n = length (points path).
Proof.
  split; [vm_compute; reflexivity|].
  destruct (curve_distance_samples_before_far_endpoint (geometry := ray_geometry) 100
              (curve_distance_call (pol 1 0) (pol 2 0) (property "_p" "r"))
              (initial 4) sample_curve_distance.2 None)
    as (from & to & n & path & Hendpoints & Hpaths & _ & _ & Hpoints).
  - vm_compute. reflexivity.
  - exists from, to, n, path. split; [exact Hendpoints|]. split; [exact Hpaths|].
    apply Forall2_length in Hpoints. rewrite length_map, length_seq in Hpoints.
    exact Hpoints.
Defined.

(** [theta(r1: 3, r2: 1, R: 2)] is no triangle; in the sample geometry
    [theta(r1: 0, r2: 2, R: 2)] gives the sentinel and
    [theta(r1: 1, r2: 2, R: 2)] the value 0. *)
Lemma function_theta_outcomes_at_sample :
  function_theta (geometry := ray_geometry)
    (theta_call (number 3) (number 1) (number 2)) (initial 10)
  = (Failed, report InvalidTriangle (initial 10))
  /\ function_theta (geometry := ray_geometry)
       (theta_call (number 0) (number 2) (number 2)) (initial 10)
     = (Failed, report NumericalFailure (initial 10))
  /\ function_theta (geometry := ray_geometry)
       (theta_call (number 1) (number 2) (number 2)) (initial 10)
     = (Returned (Some (VNumber 0)), initial 10).
Proof.
  split; [|split].
  - refine (proj1 (function_theta_outcomes (geometry := ray_geometry) _ (initial 10)
                     _ 3 1 2 _ _ _ _) _); vm_compute; reflexivity.
  - refine (proj1 (proj1 (proj2 (function_theta_outcomes (geometry := ray_geometry) _
                     (initial 10) _ 0 2 2 _ _ _ _) _)) _); vm_compute; reflexivity.
  - refine (proj2 (proj2 (function_theta_outcomes (geometry := ray_geometry) _
                     (initial 10) _ 1 2 2 _ _ _ _) _) _); vm_compute; reflexivity.
Defined.

(** [random(from: 5, to: 2)] fails; [random(from: 2, to: 2)] gives 2; and
    for the bounds -2^1023 and 2^1023, whose difference overflows, the draw
    for [u = 0.5] is infinity. *)
Lemma function_random_outcomes_at_sample :
  canonical 0.5
  /\ function_random (uniform_real_distribution 0.5)
       (random_call (number 5) (number 2)) (initial 10)
     = (Failed, report InvalidRange (initial 10))
  /\ function_random (uniform_real_distribution 0.5)
       (random_call (number 2) (number 2)) (initial 10)
     = (Returned (Some (VNumber 2)), initial 10)
  /\ (-0x1p1023 <=? 0x1p1023)%float = true
  /\ exists x,
       function_random (uniform_real_distribution 0.5)
         (random_call (number (-0x1p1023)) (number 0x1p1023)) (initial 10)
       = (Returned (Some (VNumber x)), initial 10)
       /\ (x <=? 0x1p1023)%float = false.
Proof.
  assert (canonical 0.5) as Hu by (split; reflexivity).
  split; [exact Hu|]. split; [|split; [|split; [reflexivity|]]].
  - refine (proj1 (proj1 (function_random_outcomes 0.5 _ (initial 10) _ 5 2
                            _ _ _ Hu)) _); vm_compute; reflexivity.
  - refine (proj1 (proj2 (proj2 (function_random_outcomes 0.5 _ (initial 10) _ 2 2
                                   _ _ _ Hu))) eq_refl eq_refl);
      vm_compute; reflexivity.
  - refine (proj2 (proj2 (proj2 (function_random_outcomes 0.5 _ (initial 10) _
                                   (-0x1p1023) 0x1p1023 _ _ _ Hu))) _ _ _);
      vm_compute; reflexivity.
Defined.

Lemma function_set_resolution_outcomes_at_sample :
  function_set_resolution (set_resolution_call (number (-1))) (initial 10)
  = (Failed, report InvalidResolution (initial 10))
  /\ exists s',
       function_set_resolution (set_resolution_call (number 20)) (initial 10)
       = (Returned (Some (VNumber 20)), s')
       /\ resolution (canvas s') = 20%float.
Proof.
  split.
  - refine (proj1 (proj1 (function_set_resolution_outcomes _ (initial 10) _ (-1) _ _)) _);
      try (vm_compute; reflexivity).
    left. reflexivity.
  - destruct (proj2 (proj2 (function_set_resolution_outcomes
                       (set_resolution_call (number 20)) (initial 10) _ 20
                       eq_refl eq_refl)) eq_refl)
      as (s' & Hrun & Hresolution & _).
    exists s'. split; assumption.
Defined.

(** [curve_angle(from: (1,0), to: (2,0), angle: _p.r)] with resolution 4:
    the angle of each point is its radius. *)
Lemma curve_angle_point_construction_at_sample :
  exists (radii : list float) (path : Path),
    sample_curve_angle = (Returned None, sample_curve_angle.2)
    /\ paths (canvas sample_curve_angle.2) = paths (canvas (initial 4)) ++ [path]
    /\ length (points path) = length radii.
Proof.
  destruct (curve_angle_point_construction 100
              (curve_angle_call (pol 1 0) (pol 2 0) (property "_p" "r"))
              (initial 4) sample_curve_angle.2 None)
    as (from & to & radii & path & _ & _ & _ & Hpaths & Hall).
  - vm_compute. reflexivity.
  - exists radii, path. split; [vm_compute; reflexivity|]. split; [exact Hpaths|].
    symmetry. exact (Forall2_length _ _ _ Hall).
Defined.

(** * The other built-in functions *)

(** ** Running the first statements of a handler *)

(** The interpretation of the arguments either goes on with the
    interpreted arguments, or ends the handler with one message. *)
Lemma arguments_bind_run {A : Type} function_call names
    (k : gmap string Value -> Handler A) s :
  (exists interpreted,
     interpret_arguments_from_function_call function_call ∅ names s
     = (Returned interpreted, s)
     /\ (interpret_arguments_from_function_call function_call ∅ names ≫= k) s
        = k interpreted s)
  \/ (exists e,
        interpret_arguments_from_function_call function_call ∅ names s
        = (Failed, report e s)
        /\ (interpret_arguments_from_function_call function_call ∅ names ≫= k) s
           = (Failed, report e s)).
Proof.
  rewrite bind_run. unfold interpret_arguments_from_function_call.
  destruct (interpret_arguments_run function_call
              (default (fst <$> arguments function_call) names) ∅ s)
    as [[interpreted ->]|[e ->]].
  - left. exists interpreted. split; reflexivity.
  - right. exists e. split; reflexivity.
Qed.

Lemma number_bind_run {A : Type} parameter interpreted (k : float -> Handler A) s :
  (exists x,
     interpreted !! parameter = Some (VNumber x)
     /\ (number_value_for_parameter parameter interpreted ≫= k) s = k x s)
  \/ (exists e,
        (number_value_for_parameter parameter interpreted ≫= k) s
        = (Failed, report e s)).
Proof.
  rewrite bind_run.
  destruct (number_value_for_parameter_run parameter interpreted s)
    as [(x & Hx & ->)|[e ->]].
  - left. exists x. split; [exact Hx | reflexivity].
  - right. exists e. reflexivity.
Qed.

(** A point is obtained exactly from a property map of type "Pol" with
    numbers under "r" and "phi". *)
Lemma pol_value_for_parameter_decoded parameter interpreted s :
  (exists point,
     bound_point interpreted parameter point
     /\ pol_value_for_parameter parameter interpreted s = (Returned point, s))
  \/ (exists e, pol_value_for_parameter parameter interpreted s = (Failed, report e s)).
Proof.
  unfold pol_value_for_parameter, bound_point.
  destruct (interpreted !! parameter) as [[x| | |m]|];
    try (right; eexists; apply fail_run).
  destruct (m !! type_string) as [[x|t|b|m']|] eqn:Htype;
    try (right; eexists; apply fail_run).
  destruct (m !! "r") as [[radius| | |]|] eqn:Hr;
    destruct (m !! "phi") as [[angle| | |]|] eqn:Hphi;
    repeat case_match; subst;
    try (right; eexists; apply fail_run).
  left. exists (mkPol radius angle). split; [|reflexivity].
  exists m. repeat split; assumption || reflexivity.
Qed.

Lemma pol_bind_run {A : Type} parameter interpreted (k : Pol -> Handler A) s :
  (exists point,
     bound_point interpreted parameter point
     /\ (pol_value_for_parameter parameter interpreted ≫= k) s = k point s)
  \/ (exists e,
        (pol_value_for_parameter parameter interpreted ≫= k) s
        = (Failed, report e s)).
Proof.
  rewrite bind_run.
  destruct (pol_value_for_parameter_decoded parameter interpreted s)
    as [(point & Hpoint & ->)|[e ->]].
  - left. exists point. split; [exact Hpoint | reflexivity].
  - right. exists e. reflexivity.
Qed.

(** One step of a handler: the interpretation of the arguments, or the
    extraction of a number or of a point. *)
Ltac handler_step :=
  match goal with
  | |- context [(interpret_arguments_from_function_call ?c ∅ ?n ≫= ?k) ?s] =>
      let interpreted := fresh "interpreted" in
      let Harguments := fresh "Harguments" in
      let e := fresh "e" in
      let Hfailed := fresh "Hfailed" in
      destruct (arguments_bind_run c n k s)
        as [(interpreted & Harguments & ->)|(e & Hfailed & ->)]
  | |- context [(number_value_for_parameter ?p ?i ≫= ?k) ?s] =>
      let x := fresh "x" in
      let Hx := fresh "Hx" in
      let e := fresh "e" in
      destruct (number_bind_run p i k s) as [(x & Hx & ->)|[e ->]]
  | |- context [(pol_value_for_parameter ?p ?i ≫= ?k) ?s] =>
      let point := fresh "point" in
      let Hpoint := fresh "Hpoint" in
      let e := fresh "e" in
      destruct (pol_bind_run p i k s) as [(point & Hpoint & ->)|[e ->]]
  end.

(** ** The functions that compute a value *)

Section Values.
Context {geometry : PolGeometry}.

(** A handler that takes the number [x] and returns [f x]. *)
Lemma number_function_run (f : float -> float) function_call s :
  let run :=
    (interpreted_arguments ←
       interpret_arguments_from_function_call function_call ∅ None;
     x ← number_value_for_parameter "x" interpreted_arguments;
     mret (Some (VNumber (f x)))) s in
  (exists interpreted x,
     interpret_arguments_from_function_call function_call ∅ None s
     = (Returned interpreted, s)
     /\ interpreted !! "x" = Some (VNumber x)
     /\ run = (Returned (Some (VNumber (f x))), s))
  \/ (exists e, run = (Failed, report e s)).
Proof.
  cbv zeta.
  handler_step; [|right; eexists; reflexivity].
  handler_step; [|right; eexists; reflexivity].
  left. exists interpreted, x. repeat split; assumption || reflexivity.
Qed.

(** What a run of [rotate] gives. *)
Lemma function_rotate_run function_call s :
  (exists interpreted point angle,
     interpret_arguments_from_function_call function_call ∅ None s
     = (Returned interpreted, s)
     /\ bound_point interpreted "point" point
     /\ interpreted !! "by" = Some (VNumber angle)
     /\ function_rotate function_call s
        = (Returned (Some (VRecord (pol_property_map (r (rotate_by point angle))
                                      (phi (rotate_by point angle))))), s))
  \/ (exists e, function_rotate function_call s = (Failed, report e s)).
Proof.
  unfold function_rotate.
  handler_step; [|right; eexists; reflexivity].
  handler_step; [|right; eexists; reflexivity].
  handler_step; [|right; eexists; reflexivity].
  left. exists interpreted, point, x. repeat split; assumption || reflexivity.
Qed.

(** What a run of [translate] gives. *)
Lemma function_translate_run function_call s :
  (exists interpreted point distance,
     interpret_arguments_from_function_call function_call ∅ None s
     = (Returned interpreted, s)
     /\ bound_point interpreted "point" point
     /\ interpreted !! "by" = Some (VNumber distance)
     /\ function_translate function_call s
        = (Returned (Some (VRecord
             (pol_property_map (r (translate_horizontally_by point distance))
                (phi (translate_horizontally_by point distance))))), s))
  \/ (exists e, function_translate function_call s = (Failed, report e s)).
Proof.
  unfold function_translate.
  handler_step; [|right; eexists; reflexivity].
  handler_step; [|right; eexists; reflexivity].
  handler_step; [|right; eexists; reflexivity].
  left. exists interpreted, point, x. repeat split; assumption || reflexivity.
Qed.

End Values.

(** ** The square root of binary64 *)

Lemma is_nan_spec (x : float) :
  is_nan x = match Prim2SF x with S754_nan => true | _ => false end.
Proof.
  unfold is_nan. rewrite FloatAxioms.eqb_spec. unfold SFeqb.
  rewrite SFcompare_refl. destruct (Prim2SF x); reflexivity.
Qed.

(** A square root that is an infinity or a finite number has the sign
    bit clear. *)
Lemma SFsqrt_sign (x : spec_float) :
  match SFsqrt prec emax x with
  | S754_infinity sign | S754_finite sign _ _ => sign = false
  | S754_zero _ | S754_nan => True
  end.
Proof.
  destruct x as [sign|[]| |[] m e]; try exact I; try reflexivity.
  unfold SFsqrt.
  destruct (SFsqrt_core_binary prec emax (Z.pos m) e) as [[mz ez] lz].
  unfold binary_round_aux.
  destruct (shr_fexp prec emax mz ez lz) as [mrs' e'].
  destruct (shr_fexp prec emax _ e' loc_Exact) as [mrs'' e''].
  destruct (shr_m mrs''); [exact I| |exact I].
  destruct (e'' <=? emax - prec)%Z; reflexivity.
Qed.

Lemma sqrt_not_negative (x : float) : (sqrt x <? 0)%float = false.
Proof.
  rewrite ltb_spec, sqrt_spec. unfold SFltb, SF64sqrt.
  change (Prim2SF 0) with (S754_zero false).
  pose proof (SFsqrt_sign (Prim2SF x)) as H.
  destruct (SFsqrt prec emax (Prim2SF x)) as [sign|sign| |sign m e];
    subst; reflexivity.
Qed.

Lemma shr_1_nonneg mrs : (0 <= shr_m mrs)%Z -> (0 <= shr_m (shr_1 mrs))%Z.
Proof. destruct mrs as [[|[p|p|]|[p|p|]] round sticky]; simpl; lia. Qed.

Lemma iter_pos_shr_1_nonneg n : forall mrs,
  (0 <= shr_m mrs)%Z -> (0 <= shr_m (SpecFloat.iter_pos shr_1 n mrs))%Z.
Proof.
  induction n as [n IH|n IH|]; intros mrs H; simpl.
  - apply IH, IH, shr_1_nonneg, H.
  - apply IH, IH, H.
  - apply shr_1_nonneg, H.
Qed.

Lemma shr_fexp_nonneg m e l :
  (0 <= m)%Z -> (0 <= shr_m (fst (shr_fexp prec emax m e l)))%Z.
Proof.
  intros H. unfold shr_fexp, shr.
  assert (0 <= shr_m (shr_record_of_loc m l))%Z as H0
    by (destruct l as [|[]]; exact H).
  destruct (fexp prec emax (Zdigits2 m + e) - e)%Z; simpl;
    [exact H0 | apply iter_pos_shr_1_nonneg, H0 | exact H0].
Qed.

Lemma round_nearest_even_nonneg m l :
  (0 <= m)%Z -> (0 <= round_nearest_even m l)%Z.
Proof.
  intros H. destruct l as [|[]]; simpl; try lia.
  destruct (Z.even m); lia.
Qed.

(** Rounding a mantissa that is not negative does not give NaN. *)
Lemma binary_round_aux_not_nan sign m e l :
  (0 <= m)%Z -> binary_round_aux prec emax sign m e l <> S754_nan.
Proof.
  intros H. unfold binary_round_aux.
  pose proof (shr_fexp_nonneg m e l H) as H1.
  destruct (shr_fexp prec emax m e l) as [mrs' e'].
  pose proof (shr_fexp_nonneg _ e' loc_Exact
                (round_nearest_even_nonneg _ (loc_of_shr_record mrs') H1)) as H2.
  destruct (shr_fexp prec emax _ e' loc_Exact) as [mrs'' e''].
  simpl in H2.
  destruct (shr_m mrs''); [discriminate| |lia].
  destruct (e'' <=? emax - prec)%Z; discriminate.
Qed.

Lemma SFsqrt_nan (x : spec_float) :
  SFsqrt prec emax x = S754_nan ->
  x = S754_nan \/ SFcompare x (S754_zero false) = Some Lt.
Proof.
  destruct x as [sign|[]| |[] m e]; try discriminate; auto.
  unfold SFsqrt, SFsqrt_core_binary.
  pose proof (Z.sqrtrem_sqrt
    match (e - 2 * Z.min (fexp prec emax (Z.div2 (Zdigits2 (Z.pos m) + e + 1)))
                     (Z.div2 e))%Z with
    | Zpos p =>
        Z.shiftl (Z.pos m)
          (e - 2 * Z.min (fexp prec emax (Z.div2 (Zdigits2 (Z.pos m) + e + 1)))
                     (Z.div2 e))
    | Z0 => Z.pos m
    | Zneg _ => 0%Z
    end) as Hq.
  cbv zeta.
  destruct (Z.sqrtrem _) as [q remainder]. simpl in Hq.
  intros Hnan. apply binary_round_aux_not_nan in Hnan; [destruct Hnan|].
  subst q. apply Z.sqrt_nonneg.
Qed.

(** The square root is NaN exactly for the numbers below zero and NaN. *)
Lemma sqrt_nan_iff (x : float) :
  is_nan (sqrt x) = true <-> (x <? 0)%float = true \/ is_nan x = true.
Proof.
  rewrite !is_nan_spec, ltb_spec, sqrt_spec. unfold SFltb, SF64sqrt. split.
  - intros H.
    destruct (SFsqrt prec emax (Prim2SF x)) eqn:Hsqrt; try discriminate H.
    apply SFsqrt_nan in Hsqrt as [-> | Hlt]; [right; reflexivity|].
    left. change (Prim2SF 0) with (S754_zero false). rewrite Hlt. reflexivity.
  - change (Prim2SF 0) with (S754_zero false).
    destruct (Prim2SF x) as [sign|[]| |[] m e]; try reflexivity;
      intros [H|H]; discriminate H.
Qed.

(** No number is below NaN, and NaN is below no number. *)
Lemma ltb_nan (x y : float) :
  is_nan x = true \/ is_nan y = true -> (x <? y)%float = false.
Proof.
  rewrite !is_nan_spec, ltb_spec. unfold SFltb.
  intros [H|H].
  - destruct (Prim2SF x); try discriminate H. reflexivity.
  - destruct (Prim2SF y); try discriminate H.
    destruct (Prim2SF x); reflexivity.
Qed.

(** ** [clear], [circle], [line], [mark] *)

(** Every name that is interpreted is bound afterwards. *)
Lemma interpret_arguments_bound function_call names :
  forall interpreted s interpreted' s',
  interpret_arguments function_call names interpreted s = (Returned interpreted', s') ->
  forall name, name ∈ names \/ is_Some (interpreted !! name) ->
               is_Some (interpreted' !! name).
Proof.
  induction names as [|first rest IH]; intros interpreted s interpreted' s' Hrun name Hname.
  - injection Hrun as <- _. destruct Hname as [Hin|H]; [|exact H].
    apply elem_of_nil in Hin. destruct Hin.
  - simpl in Hrun.
    destruct (argument_named first (arguments function_call)) as [e|]; [|discriminate].
    destruct (e (scopes s)) as [err|v]; [discriminate|].
    apply (IH _ _ _ _ Hrun).
    destruct Hname as [Hin|Hbound].
    + apply elem_of_cons in Hin as [->|Hin]; [|left; exact Hin].
      right. rewrite lookup_insert_eq. eexists. reflexivity.
    + right. destruct (decide (first = name)) as [->|Hne].
      * rewrite lookup_insert_eq. eexists. reflexivity.
      * rewrite lookup_insert_ne by exact Hne. exact Hbound.
Qed.

(** A call without arguments has no interpreted arguments, and any other
    call whose arguments can be interpreted has some. *)
Lemma interpreted_arguments_empty function_call s interpreted :
  interpret_arguments_from_function_call function_call ∅ None s
  = (Returned interpreted, s) ->
  size interpreted = 0 <-> arguments function_call = [].
Proof.
  unfold interpret_arguments_from_function_call. intros Hrun.
  destruct (arguments function_call) as [|[name e] rest] eqn:Harguments.
  - simpl in Hrun. injection Hrun as <-. rewrite map_size_empty. tauto.
  - split; [|discriminate]. intros Hsize.
    apply map_size_empty_iff in Hsize. subst interpreted.
    destruct (interpret_arguments_bound _ _ _ _ _ _ Hrun name) as [v Hv].
    + left. simpl. apply elem_of_cons. left. reflexivity.
    + rewrite lookup_empty in Hv. discriminate.
Qed.

Lemma argument_named_of_name name (args : list (string * Expression)) :
  name ∈ (fst <$> args) ->
  exists e, argument_named name args = Some e /\ (name, e) ∈ args.
Proof.
  induction args as [|[n e] rest IH]; simpl; intros Hin.
  - apply elem_of_nil in Hin. destruct Hin.
  - destruct (decide (n = name)) as [->|Hne].
    + exists e. split; [reflexivity|]. apply elem_of_cons. left. reflexivity.
    + apply elem_of_cons in Hin as [Heq|Hin]; [congruence|].
      destruct (IH Hin) as (e' & Hnamed & Helem).
      exists e'. split; [exact Hnamed|]. apply elem_of_cons. right. exact Helem.
Qed.

(** The interpretation of arguments that all evaluate does not fail. *)
Lemma interpret_arguments_evaluated function_call s names :
  Forall (fun argument => exists v, argument.2 (scopes s) = inr v)
    (arguments function_call) ->
  names ⊆ (fst <$> arguments function_call) ->
  forall interpreted,
  exists interpreted',
    interpret_arguments function_call names interpreted s = (Returned interpreted', s).
Proof.
  intros Hall. induction names as [|name rest IH]; intros Hnames interpreted.
  - eexists. reflexivity.
  - simpl.
    destruct (argument_named_of_name name (arguments function_call))
      as (e & -> & Helem).
    { apply Hnames. apply elem_of_cons. left. reflexivity. }
    rewrite Forall_forall in Hall. destruct (Hall _ Helem) as [v Hv].
    simpl in Hv. rewrite Hv. apply IH.
    intros n Hn. apply Hnames. apply elem_of_cons. right. exact Hn.
Qed.

Section Drawing.
Context {drawing : CanvasOperations}.

(** What a run of [clear] gives. *)
Lemma function_clear_run function_call s :
  (arguments function_call = []
   /\ function_clear function_call s
      = (Returned None, on_canvas (clear (canvas s)) s))
  \/ (arguments function_call <> []
      /\ exists e,
           function_clear function_call s = (Failed, report e s)
           /\ (Forall (fun argument => exists v, argument.2 (scopes s) = inr v)
                 (arguments function_call) -> e = ExtraneousArgument)).
Proof.
  unfold function_clear.
  handler_step.
  - pose proof (interpreted_arguments_empty _ _ _ Harguments) as Hempty.
    destruct (decide (size interpreted = 0)) as [Hsize|Hsize].
    + left. split; [apply Hempty, Hsize|].
      rewrite bool_decide_eq_true_2 by exact Hsize. reflexivity.
    + right. split; [intros H; apply Hsize, Hempty, H|].
      rewrite bool_decide_eq_false_2 by exact Hsize.
      exists ExtraneousArgument. split; reflexivity.
  - right.
    assert (arguments function_call <> []) as Hne.
    { intros Hnil. unfold interpret_arguments_from_function_call in Hfailed.
      rewrite Hnil in Hfailed. discriminate Hfailed. }
    split; [exact Hne|]. exists e. split; [reflexivity|].
    intros Hall.
    destruct (interpret_arguments_evaluated function_call s
                (fst <$> arguments function_call) Hall (reflexivity _) ∅)
      as [interpreted Hrun].
    unfold interpret_arguments_from_function_call in Hfailed. simpl in Hfailed.
    rewrite Hrun in Hfailed. discriminate Hfailed.
Qed.

(** What a run of [circle] gives. *)
Lemma function_circle_run function_call s :
  (exists interpreted center radius,
     interpret_arguments_from_function_call function_call ∅ None s
     = (Returned interpreted, s)
     /\ bound_point interpreted "center" center
     /\ interpreted !! "radius" = Some (VNumber radius)
     /\ function_circle function_call s
        = (Returned None,
           drawn (path_for_circle center radius (resolution (canvas s))) s))
  \/ (exists e, function_circle function_call s = (Failed, report e s)).
Proof.
  unfold function_circle.
  handler_step; [|right; eexists; reflexivity].
  handler_step; [|right; eexists; reflexivity].
  handler_step; [|right; eexists; reflexivity].
  left. exists interpreted, point, x. repeat split; assumption || reflexivity.
Qed.

(** What a run of [line] gives. *)
Lemma function_line_run function_call s :
  (exists interpreted from to,
     interpret_arguments_from_function_call function_call ∅ None s
     = (Returned interpreted, s)
     /\ bound_point interpreted "from" from
     /\ bound_point interpreted "to" to
     /\ function_line function_call s
        = (Returned None,
           drawn (path_for_line from to (resolution (canvas s))) s))
  \/ (exists e, function_line function_call s = (Failed, report e s)).
Proof.
  unfold function_line.
  handler_step; [|right; eexists; reflexivity].
  handler_step; [|right; eexists; reflexivity].
  handler_step; [|right; eexists; reflexivity].
  left. exists interpreted, point, point0. repeat split; assumption || reflexivity.
Qed.

(** What a run of [mark] gives. *)
Lemma function_mark_run function_call s :
  (exists interpreted center radius,
     interpret_arguments_from_function_call function_call ∅ None s
     = (Returned interpreted, s)
     /\ bound_point interpreted "center" center
     /\ interpreted !! "radius" = Some (VNumber radius)
     /\ function_mark function_call s
        = (Returned None,
           on_canvas (add_mark {| center := center; radius := radius |} (canvas s)) s))
  \/ (exists e, function_mark function_call s = (Failed, report e s)).
Proof.
  unfold function_mark.
  handler_step; [|right; eexists; reflexivity].
  handler_step; [|right; eexists; reflexivity].
  handler_step; [|right; eexists; reflexivity].
  left. exists interpreted, point, x. repeat split; assumption || reflexivity.
Qed.

End Drawing.


(** ** Properties of the other built-in functions *)

Section Others.
Context {geometry : PolGeometry} {drawing : CanvasOperations}.

(** X4.  [sqrt] has no domain check.  Whenever the arguments can be
    interpreted and [x] is a number, the handler returns [true] with
    [::sqrt(x)] and changes nothing; that result is never below zero, and it
    is NaN exactly when [x] is below zero or NaN: the square root of a
    negative number is delivered as NaN, without a message. *)
Theorem function_sqrt_has_no_domain_check function_call s interpreted x :
  interpret_arguments_from_function_call function_call ∅ None s
  = (Returned interpreted, s) ->
  interpreted !! "x" = Some (VNumber x) ->
  function_sqrt function_call s = (Returned (Some (VNumber (sqrt x))), s)
  /\ (sqrt x <? 0)%float = false
  /\ (is_nan (sqrt x) = true <-> (x <? 0)%float = true \/ is_nan x = true).
Proof.
  intros Harguments Hx. split; [|split].
  - destruct (number_function_run sqrt function_call s)
      as [(interpreted' & x' & Harguments' & Hx' & H)|[e H]].
    + rewrite Harguments in Harguments'. injection Harguments' as <-.
      rewrite Hx in Hx'. injection Hx' as <-. exact H.
    + unfold function_sqrt. rewrite bind_run, Harguments.
      unfold number_value_for_parameter. rewrite Hx. reflexivity.
  - apply sqrt_not_negative.
  - apply sqrt_nan_iff.
Qed.

(** X5.  [clear] returns [true] exactly for a call without arguments; it
    then sets no result and changes only the canvas, by [Canvas::clear].
    Any call with an argument returns [false] after one message and leaves
    the canvas as it was, and when all the arguments evaluate the message
    is the one about the extraneous argument. *)
Theorem function_clear_outcomes function_call s :
  match function_clear function_call s with
  | (Returned result, s') =>
      arguments function_call = [] /\ result = None
      /\ s' = on_canvas (clear (canvas s)) s
  | (Failed, s') =>
      arguments function_call <> []
      /\ exists e,
           s' = report e s
           /\ (Forall (fun argument => exists v, argument.2 (scopes s) = inr v)
                 (arguments function_call) -> e = ExtraneousArgument)
  | (OutOfFuel, _) => False
  end.
Proof.
  destruct (function_clear_run function_call s) as [[Hnil ->]|(Hne & e & -> & He)].
  - repeat split. exact Hnil.
  - split; [exact Hne|]. exists e. split; [reflexivity | exact He].
Qed.

(** A point bound to a parameter is the point obtained for it. *)
Lemma bound_point_value interpreted name point s :
  bound_point interpreted name point ->
  pol_value_for_parameter name interpreted s = (Returned point, s).
Proof.
  intros (m & Hm & Htype & Hr & Hphi).
  unfold pol_value_for_parameter. rewrite Hm, Htype, Hr, Hphi.
  destruct point; reflexivity.
Qed.

(** X6.  [circle], [line] and [mark] once the arguments have been
    interpreted.  When [center] is bound to a point and [radius] to a
    number, whatever that number is (nothing checks the radius: it may be
    negative or NaN), [circle] returns [true] with no result and adds to the
    canvas exactly the path that [Canvas::path_for_circle] gives for them and
    the resolution of the canvas, and [mark] returns [true] with no result
    and applies [Canvas::add_mark] to the circle of that center and radius.
    When [from] and [to] are bound to points, [line] adds exactly the path
    of [Canvas::path_for_line].  When one of the parameters is not bound to
    a value of its type, the handler returns [false] after one message and
    the canvas is as it was. *)
Theorem drawing_functions_outcomes function_call s interpreted :
  interpret_arguments_from_function_call function_call ∅ None s
  = (Returned interpreted, s) ->
  (forall center radius,
     bound_point interpreted "center" center ->
     interpreted !! "radius" = Some (VNumber radius) ->
     function_circle function_call s
     = (Returned None,
        drawn (path_for_circle center radius (resolution (canvas s))) s)
     /\ function_mark function_call s
        = (Returned None,
           on_canvas (add_mark {| center := center; radius := radius |}
                        (canvas s)) s))
  /\ (forall from to,
        bound_point interpreted "from" from ->
        bound_point interpreted "to" to ->
        function_line function_call s
        = (Returned None,
           drawn (path_for_line from to (resolution (canvas s))) s))
  /\ ((forall center, ~ bound_point interpreted "center" center)
      \/ (forall radius, interpreted !! "radius" <> Some (VNumber radius)) ->
      exists e e',
        function_circle function_call s = (Failed, report e s)
        /\ function_mark function_call s = (Failed, report e' s))
  /\ ((forall from, ~ bound_point interpreted "from" from)
      \/ (forall to, ~ bound_point interpreted "to" to) ->
      exists e, function_line function_call s = (Failed, report e s)).
Proof.
  intros Harguments. split; [|split; [|split]].
  - intros center radius Hcenter Hradius.
    unfold function_circle, function_mark.
    rewrite !bind_run, Harguments.
    rewrite !bind_run, (bound_point_value _ _ _ _ Hcenter).
    rewrite !bind_run. unfold number_value_for_parameter. rewrite Hradius.
    split; reflexivity.
  - intros from to Hfrom Hto.
    unfold function_line.
    rewrite bind_run, Harguments.
    rewrite bind_run, (bound_point_value _ _ _ _ Hfrom).
    rewrite bind_run, (bound_point_value _ _ _ _ Hto).
    reflexivity.
  - intros Hunbound.
    destruct (function_circle_run function_call s)
      as [(interpreted' & center & radius & Harguments' & Hcenter & Hradius & _)
         |[e Hcircle]].
    { rewrite Harguments in Harguments'. injection Harguments' as <-.
      destruct Hunbound as [H|H]; [destruct (H _ Hcenter) | destruct (H _ Hradius)]. }
    destruct (function_mark_run function_call s)
      as [(interpreted' & center & radius & Harguments' & Hcenter & Hradius & _)
         |[e' Hmark]].
    { rewrite Harguments in Harguments'. injection Harguments' as <-.
      destruct Hunbound as [H|H]; [destruct (H _ Hcenter) | destruct (H _ Hradius)]. }
    exists e, e'. split; assumption.
  - intros Hunbound.
    destruct (function_line_run function_call s)
      as [(interpreted' & from & to & Harguments' & Hfrom & Hto & _)|[e Hline]].
    { rewrite Harguments in Harguments'. injection Harguments' as <-.
      destruct Hunbound as [H|H]; [destruct (H _ Hfrom) | destruct (H _ Hto)]. }
    exists e. exact Hline.
Qed.


(** The property map that the handlers build for a point is read back as
    that point wherever a point is expected. *)
Lemma pol_property_map_decoded name interpreted (point : Pol) s :
  pol_value_for_parameter name
    (<[name := VRecord (pol_property_map (r point) (phi point))]> interpreted) s
  = (Returned point, s).
Proof.
  unfold pol_value_for_parameter. rewrite lookup_insert_eq.
  unfold pol_property_map, type_string.
  rewrite (lookup_insert_ne _ "phi" "type") by discriminate.
  rewrite (lookup_insert_ne _ "r" "type") by discriminate.
  rewrite lookup_insert_eq.
  rewrite (lookup_insert_ne _ "phi" "r") by discriminate.
  rewrite !lookup_insert_eq.
  destruct point; reflexivity.
Qed.

(** X8.  A point returned by [rotate] or [translate] is a point for every
    other handler.  When one of them returns [true], its result is the
    property map of the point [point.rotate_by(angle)], or
    [point.translate_horizontally_by(distance)], of the point and the number
    bound to the parameters [point] and [by]; and [pol_value_for_parameter]
    reads that value back as exactly this point, under whatever parameter
    name it is bound, without a message. *)
Theorem moved_point_is_read_back function_call s s' result :
  (function_rotate function_call s = (Returned result, s') ->
   exists interpreted point angle v,
     interpret_arguments_from_function_call function_call ∅ None s
     = (Returned interpreted, s)
     /\ bound_point interpreted "point" point
     /\ interpreted !! "by" = Some (VNumber angle)
     /\ result = Some v /\ s' = s
     /\ forall name others s0,
          pol_value_for_parameter name (<[name := v]> others) s0
          = (Returned (rotate_by point angle), s0))
  /\ (function_translate function_call s = (Returned result, s') ->
      exists interpreted point distance v,
        interpret_arguments_from_function_call function_call ∅ None s
        = (Returned interpreted, s)
        /\ bound_point interpreted "point" point
        /\ interpreted !! "by" = Some (VNumber distance)
        /\ result = Some v /\ s' = s
        /\ forall name others s0,
             pol_value_for_parameter name (<[name := v]> others) s0
             = (Returned (translate_horizontally_by point distance), s0)).
Proof.
  split; intros Hrun.
  - destruct (function_rotate_run function_call s)
      as [(interpreted & point & angle & Harguments & Hpoint & Hangle & H)|[e H]];
      rewrite H in Hrun; [|discriminate].
    injection Hrun as <- <-.
    exists interpreted, point, angle. eexists.
    repeat split; try eassumption; try reflexivity.
    intros name others s0. apply pol_property_map_decoded.
  - destruct (function_translate_run function_call s)
      as [(interpreted & point & distance & Harguments & Hpoint & Hdistance & H)|[e H]];
      rewrite H in Hrun; [|discriminate].
    injection Hrun as <- <-.
    exists interpreted, point, distance. eexists.
    repeat split; try eassumption; try reflexivity.
    intros name others s0. apply pol_property_map_decoded.
Qed.

(** X14.  The range checks of [random] and [theta] let NaN through.  They
    are written [to < from], [r_1 > R || r_2 > R] and [r_1 + r_2 < R], and a
    comparison with NaN is false: with a bound that is NaN, [random] gives
    no message and returns what the distribution draws for these bounds;
    with an [R] that is NaN, [theta] never reports an invalid triangle and
    goes on to [Pol::theta]. *)
Theorem range_checks_let_nan_through distribution function_call s interpreted :
  interpret_arguments_from_function_call function_call ∅ None s
  = (Returned interpreted, s) ->
  (forall from to,
     interpreted !! "from" = Some (VNumber from) ->
     interpreted !! "to" = Some (VNumber to) ->
     is_nan from = true \/ is_nan to = true ->
     function_random distribution function_call s
     = (Returned (Some (VNumber (distribution from to))), s))
  /\ (forall r_1 r_2 R,
        interpreted !! "r1" = Some (VNumber r_1) ->
        interpreted !! "r2" = Some (VNumber r_2) ->
        interpreted !! "R" = Some (VNumber R) ->
        is_nan R = true ->
        function_theta function_call s
        = if (theta r_1 r_2 R <? 0)%float
          then (Failed, report NumericalFailure s)
          else (Returned (Some (VNumber (theta r_1 r_2 R))), s)).
Proof.
  intros Harguments. split.
  - intros from to Hfrom Hto Hnan.
    unfold function_random. rewrite bind_run, Harguments.
    unfold number_value_for_parameter. rewrite Hfrom, Hto.
    repeat (rewrite ret_bind_run; cbv beta).
    rewrite (ltb_nan to from) by tauto. reflexivity.
  - intros r_1 r_2 R H1 H2 HR Hnan.
    unfold function_theta. rewrite bind_run, Harguments.
    unfold number_value_for_parameter. rewrite H1, H2, HR.
    repeat (rewrite ret_bind_run; cbv beta). cbv zeta.
    rewrite (ltb_nan R r_1), (ltb_nan R r_2), (ltb_nan (r_1 + r_2) R) by tauto.
    cbn [orb]. destruct (theta r_1 r_2 R <? 0)%float; reflexivity.
Qed.

End Others.

(** ** Where [curve_angle] samples *)

(** The additional radii of one round lie strictly below the bound. *)
Lemma curve_angle_additional_radii_below fuel : forall additional_step_size bound
    additional_r radii result,
  curve_angle_additional_radii fuel additional_step_size bound additional_r radii
  = Some result ->
  exists additional,
    result = radii ++ additional
    /\ Forall (fun x => (x <? bound)%float = true) additional.
Proof.
  induction fuel as [|fuel IH]; intros additional_step_size bound additional_r
    radii result Hrun; [discriminate Hrun|].
  simpl in Hrun.
  destruct (additional_r <? bound)%float eqn:Hbelow.
  - destruct (IH _ _ _ _ _ Hrun) as (additional & -> & Hall).
    exists (additional_r :: additional). split.
    + rewrite <- app_assoc. reflexivity.
    + constructor; assumption.
  - injection Hrun as <-. exists []. rewrite app_nil_r. split; constructor.
Qed.

Lemma within_a_step_weaken from_r to_r step_size additional_detail_threshold
    (radii radii' : list float) x :
  radii ⊆ radii' ->
  within_a_step from_r to_r step_size additional_detail_threshold radii x ->
  within_a_step from_r to_r step_size additional_detail_threshold radii' x.
Proof.
  intros Hsub [Hregular|(regular & Helem & H)]; [left; exact Hregular|].
  right. exists regular. split; [apply Hsub, Helem | exact H].
Qed.

(** Every radius that the two loops collect is a regular sample at most
    [to_r], or an additional sample below the regular sample that follows
    one of the detailed region. *)
Lemma curve_angle_radii_within_a_step inner_fuel fuel : forall from_r to_r step_size
    additional_detail_threshold additional_step_size radius radii result,
  curve_angle_radii inner_fuel fuel from_r to_r step_size additional_detail_threshold
    additional_step_size radius radii = Some result ->
  exists collected,
    result = radii ++ collected
    /\ Forall (within_a_step from_r to_r step_size additional_detail_threshold collected)
         collected.
Proof.
  induction fuel as [|fuel IH]; intros from_r to_r step_size
    additional_detail_threshold additional_step_size radius radii result Hrun;
    [discriminate Hrun|].
  simpl in Hrun.
  destruct (radius <=? to_r)%float eqn:Hregular;
    [|injection Hrun as <-; exists []; rewrite app_nil_r; split; constructor].
  assert (exists additional detailed,
            Forall (fun x => (x <? radius + step_size)%float = true) additional
            /\ (additional <> [] ->
                (radius <? from_r + additional_detail_threshold)%float = true)
            /\ detailed = (radii ++ [radius]) ++ additional
            /\ curve_angle_radii inner_fuel fuel from_r to_r step_size
                 additional_detail_threshold additional_step_size
                 (radius + step_size)%float detailed = Some result)
    as (additional & detailed & Hbelow & Hdetail & -> & Hrest).
  { destruct (radius <? from_r + additional_detail_threshold)%float.
    - destruct (curve_angle_additional_radii inner_fuel _ _ _ _) as [detailed|] eqn:Hdetailed;
        [|discriminate Hrun].
      apply curve_angle_additional_radii_below in Hdetailed
        as (additional & -> & Hbelow).
      exists additional, ((radii ++ [radius]) ++ additional).
      split; [exact Hbelow|]. split; [reflexivity|].
      split; [reflexivity | exact Hrun].
    - exists [], ((radii ++ [radius]) ++ []).
      split; [constructor|]. split; [congruence|]. split; [reflexivity|].
      rewrite app_nil_r. exact Hrun. }
  destruct (IH _ _ _ _ _ _ _ _ Hrest) as (collected & -> & Hall).
  exists (radius :: additional ++ collected). split.
  { rewrite <- !app_assoc. reflexivity. }
  constructor; [left; exact Hregular|].
  apply Forall_app. split.
  - apply Forall_forall. intros x Hx. right. exists radius.
    split; [apply elem_of_cons; left; reflexivity|].
    split; [exact Hregular|]. split.
    + apply Hdetail. intros ->. apply elem_of_nil in Hx. exact Hx.
    + rewrite Forall_forall in Hbelow. apply Hbelow, Hx.
  - eapply Forall_impl; [exact Hall|]. intros x. apply within_a_step_weaken.
    intros y Hy. apply elem_of_cons. right. apply elem_of_app. right. exact Hy.
Qed.

(** The points of the path of [curve_angle] have the radii collected. *)
Lemma angle_sample_points_radii function_call frames from radii sampled :
  Forall2 (angle_sample_point function_call frames from) radii sampled ->
  radii = r <$> sampled.
Proof.
  induction 1 as [|radius point radii sampled (angle & _ & ->) _ IH]; [reflexivity|].
  rewrite fmap_cons. cbn [r]. apply (f_equal (cons radius)). exact IH.
Qed.

Section Overshoot.
Context {geometry : PolGeometry}.

(** X13.  How far [curve_angle] can sample beyond [to].  In a run that
    returns [true] the endpoints have not been exchanged, and every point of
    the path added is a regular sample, of radius at most [to.r], or an
    additional sample of the detailed region: its radius is strictly below
    [regular.r + step_size] for a point [regular] of the same path whose
    radius is at most [to.r] and strictly below
    [from.r + 5.0 * step_size], where [step_size] is
    [(to.r - from.r) / resolution].  A point beyond [to.r] is thus less than
    one regular step away from a regular sample. *)
Theorem curve_angle_overshoot_is_bounded fuel function_call s s' result :
  function_curve_angle fuel function_call s = (Returned result, s') ->
  exists from to path,
    curve_endpoints function_call s = (Returned (from, to), s)
    /\ curve_angle_endpoints from to = (from, to)
    /\ paths (canvas s') = paths (canvas s) ++ [path]
    /\ let step_size := ((r to - r from) / resolution (canvas s))%float in
       Forall (fun point =>
                 (r point <=? r to)%float = true
                 \/ exists regular,
                      regular ∈ points path
                      /\ (r regular <=? r to)%float = true
                      /\ (r regular <? r from + 5.0 * step_size)%float = true
                      /\ (r point <? r regular + step_size)%float = true)
         (points path).
Proof.
  destruct (function_curve_angle_run fuel function_call s)
    as [(from & to & Hendpoints & ->)|[e ->]]; [|discriminate].
  intros Hrun.
  destruct (phi from =? phi to)%float eqn:Hphi;
    [|rewrite curve_angle_between_inconsistent in Hrun by exact Hphi; discriminate].
  destruct (0 <? curve_angle_step_size from to (resolution (canvas s)))%float eqn:Hstep;
    [|rewrite curve_angle_between_non_positive in Hrun by assumption; discriminate].
  pose proof (curve_angle_sampling_run fuel function_call from to s Hphi Hstep) as H.
  rewrite Hrun in H.
  destruct H as (_ & _ & _ & _ & radii & path & Hradii & Hpaths & _ & Hall).
  assert (curve_angle_endpoints from to = (from, to)) as Hsame.
  { unfold curve_angle_step_size in Hstep. cbv zeta in Hstep.
    unfold curve_angle_endpoints in *.
    destruct (r to <? r from)%float; [|reflexivity].
    cbn [fst snd] in Hstep. rewrite sub_diag_div_not_positive in Hstep.
    discriminate Hstep. }
  exists from, to, path.
  split; [exact Hendpoints|]. split; [exact Hsame|]. split; [exact Hpaths|].
  unfold curve_angle_all_radii, curve_angle_step_size in Hradii.
  rewrite Hsame in Hradii, Hall. cbn [fst snd] in Hradii, Hall. cbv zeta in Hradii.
  apply curve_angle_radii_within_a_step in Hradii as (collected & -> & Hwithin).
  apply angle_sample_points_radii in Hall. cbn [app] in Hall. subst collected.
  cbv zeta. rewrite Forall_fmap in Hwithin.
  eapply Forall_impl; [exact Hwithin|].
  intros point [Hregular|(regular & Helem & H)]; [left; exact Hregular|].
  apply list_elem_of_fmap in Helem as (regular_point & -> & Helem).
  right. exists regular_point. split; [exact Helem | exact H].
Qed.

End Overshoot.

(** ** The properties at sample calls *)

(** [sqrt(x: -4)] returns NaN and gives no message. *)
Lemma function_sqrt_has_no_domain_check_at_sample :
  function_sqrt (sqrt_call (number (-4))) (initial 4)
  = (Returned (Some (VNumber (sqrt (-4)))), initial 4)
  /\ is_nan (sqrt (-4)) = true.
Proof.
  destruct (function_sqrt_has_no_domain_check (sqrt_call (number (-4))) (initial 4)
              {[ "x" := VNumber (-4) ]} (-4)%float)
    as (Hrun & _ & Hnan).
  - vm_compute. reflexivity.
  - vm_compute. reflexivity.
  - split; [exact Hrun|]. apply Hnan. left. reflexivity.
Defined.

(** [circle(center: (1,0), radius: -1)] and [mark] with the same arguments
    return [true]: the negative radius is passed on. *)
Lemma drawing_functions_outcomes_at_sample :
  function_circle (drawing := sample_drawing)
    (circle_call (pol 1 0) (number (-1))) (initial 4)
  = (Returned None,
     drawn (path_for_circle (CanvasOperations := sample_drawing) (mkPol 1 0) (-1) 4)
       (initial 4))
  /\ function_mark (drawing := sample_drawing)
       (circle_call (pol 1 0) (number (-1))) (initial 4)
     = (Returned None,
        on_canvas (add_mark (CanvasOperations := sample_drawing)
                     {| center := mkPol 1 0; radius := -1 |} (canvas (initial 4)))
          (initial 4)).
Proof.
  refine (proj1 (drawing_functions_outcomes (drawing := sample_drawing)
                   (circle_call (pol 1 0) (number (-1))) (initial 4)
                   (<["radius" := VNumber (-1)]>
                      {[ "center" := VRecord (pol_property_map 1 0) ]}) _)
            (mkPol 1 0) (-1)%float _ _);
    try (vm_compute; reflexivity).
  exists (pol_property_map 1 0). repeat split; vm_compute; reflexivity.
Defined.


(** [rotate(point: (1,0), by: 0.5)] in the sample geometry: the result is
    read back as a point. *)
Lemma moved_point_is_read_back_at_sample :
  exists (v : Value) (point : Pol),
    function_rotate (geometry := ray_geometry)
      (rotate_call (pol 1 0) (number 0.5)) (initial 4)
    = (Returned (Some v), initial 4)
    /\ pol_value_for_parameter "from" (<["from" := v]> ∅) (initial 4)
       = (Returned point, initial 4).
Proof.
  destruct (proj1 (moved_point_is_read_back (geometry := ray_geometry)
                     (rotate_call (pol 1 0) (number 0.5)) (initial 4) (initial 4)
                     (Some (VRecord (pol_property_map 1 0.5)))))
    as (interpreted & point & angle & v & _ & _ & _ & Hv & _ & Hread).
  - vm_compute. reflexivity.
  - injection Hv as <-. eexists _, _. split; [vm_compute; reflexivity|].
    apply Hread.
Defined.

(** [curve_angle(from: (1,0), to: (2,0), angle: 0)] with resolution 5.75,
    whose last point lies beyond [to.r]. *)
Lemma curve_angle_overshoot_is_bounded_at_sample :
  exists (path : Path),
    paths (canvas (function_curve_angle 100
                     (curve_angle_call (pol 1 0) (pol 2 0) (number 0))
                     (initial 5.75)).2) = [path]
    /\ Forall (fun point =>
                 (r point <=? 2)%float = true
                 \/ exists regular,
                      regular ∈ points path
                      /\ (r regular <=? 2)%float = true
                      /\ (r point <? r regular + (2 - 1) / 5.75)%float = true)
         (points path).
Proof.
  destruct (curve_angle_overshoot_is_bounded 100
              (curve_angle_call (pol 1 0) (pol 2 0) (number 0)) (initial 5.75)
              (function_curve_angle 100
                 (curve_angle_call (pol 1 0) (pol 2 0) (number 0))
                 (initial 5.75)).2 None)
    as (from & to & path & Hendpoints & _ & Hpaths & Hall).
  - vm_compute. reflexivity.
  - assert (from = mkPol 1 0 /\ to = mkPol 2 0) as [-> ->].
    { assert (curve_endpoints (curve_angle_call (pol 1 0) (pol 2 0) (number 0))
                (initial 5.75)
              = (Returned (mkPol 1 0, mkPol 2 0), initial 5.75)) as H
        by (vm_compute; reflexivity).
      rewrite H in Hendpoints. injection Hendpoints as <- <-. split; reflexivity. }
    exists path. split; [exact Hpaths|].
    cbv zeta in Hall. cbn [r canvas resolution initial] in Hall.
    eapply Forall_impl; [exact Hall|].
    intros point [Hregular|(regular & Helem & Hle & _ & Hbelow)];
      [left; exact Hregular|].
    right. exists regular. repeat split; assumption.
Defined.

(** [random(from: NaN, to: 1)] draws, where [set_resolution(x: NaN)] fails. *)
Lemma range_checks_let_nan_through_at_sample :
  function_random midpoint (random_call (number nan) (number 1)) (initial 4)
  = (Returned (Some (VNumber (midpoint nan 1))), initial 4).
Proof.
  refine (proj1 (range_checks_let_nan_through (geometry := ray_geometry) midpoint
                   (random_call (number nan) (number 1)) (initial 4)
                   (<["to" := VNumber 1]> {[ "from" := VNumber nan ]}) _)
            nan 1%float _ _ _);
    try (vm_compute; reflexivity).
  left. reflexivity.
Defined.
